(** * catalyst.rl.offpolicy.discrete_sampler: the data-collection actor

    A shallow embedding of [Sampler] (construction, [load_critic_weights],
    [store_episode], [act], [run]) and the properties of its episode loop,
    exploration schedule, seeding protocol and weight loading.

    Conventions.
    - Python integers are [Z].  The exploration numbers ([eps],
      [eps_final], [eps_delta] and the draw they are compared with) are
      Python floats: values of a type [Num] that comes with the three
      operations the module applies to them.  The model assumes nothing of
      how they round; the one theorem that needs facts about their order
      names them, in [FloatOrder].  Rewards and scores, which the module
      only adds up for the episode line or ranks, are rationals [Q].
    - Dictionaries (state dicts, checkpoints, the key-value store) are
      [gmap string _].
    - A method is a computation in the monad [M]: it reads and writes the
      sampler object and the world of its collaborators, and either returns
      a value or raises; what it wrote before raising stays written.
    - The environment, the estimator network, the random generators and the
      serialization codec are not part of this module: they are the fields
      of the class [Collaborators].
    - Every call that leaves the sampler (seeding, environment reset and
      step, checkpoint read, store GET and RPUSH, the episode line printed)
      is recorded in [trace], newest first.
    - The metrics writer needs the wall clock; runs are modelled with
      [logdir = None], where the source skips it. *)

From Stdlib Require Import ZArith QArith Lqa Lia List Ascii String.
From Stdlib Require SpecFloat.
From stdpp Require Import base option list gmap strings.

Local Open Scope Z_scope.

(** ** Exceptions *)

(** The Python exceptions that can surface from the sampler.  The last two
    are the names the design document uses; no line of the module builds
    them. *)
Inductive exn : Set :=
  | NotImplementedError
  | ZeroDivisionError
  | IndexError
  | KeyError
  | ValueError
  | TypeError
  | RuntimeError
  | FileNotFoundError
  | BufferOverflowError
  | IncompleteEpisodeError
  | ConfigurationError
  | WeightsUnavailableError.

Inductive res (A : Type) : Type :=
  | Ok (a : A)
  | Raise (e : exn).
Arguments Ok {A} a.
Arguments Raise {A} e.

(** ** Module constant (line 19) *)

Definition SEED_RANGE : Z := 2 ^ 32 - 2.

(** ** Collaborators *)

(** Everything the module imports or is handed at construction.
    - [Rand] is the state of the process-wide random sources, the ones
      [set_global_seeds] reseeds; [seed_all i] is that state after
      [set_global_seeds(i)].
    - [randbelow n] is [random.randrange(n)]: a draw in [0, n).
    - [Num] is the type of Python's floats, with [num_sub] for [a - b],
      [num_div_int] for [a / n] with an integer [n] other than 0, and
      [num_lt] for [a < b]; an integer given where a float is expected
      stands for the float of the same value.
    - [np_rand] is [np.random.rand()], [np_randint n] is
      [np.random.randint(n)] for an [n] that numpy accepts.
    - [env_reset] and [env_step] are the environment's methods; they may
      draw from the random sources.  [env_step] returns the next
      observation, the reward, the done flag and
      [info.get("reward_origin")].
    - [q_values] is the estimator applied to a stacked state when it is in
      evaluation mode: the scores are a function of the parameters and the
      input, and the pass leaves the module as it is.  [forward_train] is
      the same call on an estimator in training mode, where the pass may
      draw from the random sources (dropout) and move the buffers of the
      normalisation layers: it returns the scores, the state dict and the
      random sources it leaves.
    - [tensor_shape] is the size of a tensor.
    - [serialize], [deserialize], [to_tensor] are the codec and the tensor
      conversion; [deserialize] receives what the store's GET returned. *)
Class Collaborators := {
  Obs : Type;
  Raw : Type;
  Tensor : Type;
  Rand : Type;
  Env : Type;
  Num : Type;
  num_sub : Num → Num → Num;
  num_div_int : Num → Z → Num;
  num_lt : Num → Num → bool;
  seed_all : Z → Rand;
  randbelow : Z → Rand → Z * Rand;
  randbelow_range : ∀ n g, 0 < n → 0 ≤ (randbelow n g).1 < n;
  np_rand : Rand → Num * Rand;
  np_randint : Z → Rand → Z * Rand;
  env_reset : Env → Rand → Obs * Env * Rand;
  env_step : Env → Z → Rand → (Obs * Q * bool * option Q) * Env * Rand;
  q_values : gmap string Tensor → list Obs → list Q;
  forward_train :
    gmap string Tensor → list Obs → Rand → list Q * gmap string Tensor * Rand;
  tensor_shape : Tensor → list Z;
  to_tensor : Raw → Tensor;
  serialize : list Obs * list Z * list Q * list bool → string;
  deserialize : option string → res (gmap string Raw);
}.

Section Model.
Context `{C : Collaborators}.

(** ** Data *)

(** The estimator: its named parameters and the train/eval switch of
    [torch.nn.Module]. *)
Record Critic := {
  state_dict : gmap string Tensor;
  training : bool;
}.

(** Modelled from the spec: [SamplerBuffer] lives in
    [catalyst.rl.offpolicy.utils], which is not among the sources.  It is
    the spec's EpisodeBuffer: a capacity, the frames seen since the last
    reset (frame 0 is the initial observation) and the three sequences of
    the pushed transitions. *)
Record SamplerBuffer := {
  capacity : Z;
  frames : list Obs;
  actions : list Z;
  rewards : list Q;
  dones : list bool;
}.

(** The constructor's parameters (lines 39-59); [critic] and [env] are
    passed beside it. *)
Record Config := {
  id : Z;
  num_actions : Z;
  redis_server : bool;
  redis_prefix : option string;
  buffer_size : Z;
  history_len : Z;
  weights_sync_period : Z;
  mode : string;
  resume : option string;
  exploration_eps_init : Num;
  exploration_eps_final : Num;
  exploration_annealing_steps : Z;
  seeds : option (list Z);
  episode_limit : option Z;
  force_store : bool;
}.

(** The attributes of a [Sampler] object (lines 61-101).  The handle
    [self.redis_server] is [true] when a server was supplied; the server's
    contents are in the world. *)
Record Sampler := {
  self_seed : Z;
  self_sampler_id : Z;
  self_critic : Critic;
  self_redis_server : bool;
  self_redis_prefix : string;
  self_resume : option string;
  self_episode_limit : Z;
  self_force_store : bool;
  self_num_actions : Z;
  self_history_len : Z;
  self_buffer_size : Z;
  self_weights_sync_period : Z;
  self_episode_index : Z;
  self_eps : Num;
  self_eps_final : Num;
  self_eps_delta : Num;
  self_infer : bool;
  self_seeds : option (list Z);
  self_buffer : SamplerBuffer;
}.

(** Calls that leave the sampler.  A reset is recorded with the state of
    the random sources the environment finds. *)
Inductive Event :=
  | EvSeed (i : Z)
  | EvReset (found : Rand)
  | EvStep (action : Z)
  | EvLoadCheckpoint (path : string)
  | EvGet (key : string)
  | EvRpush (key : string) (value : string)
  | EvPrint (episode_index step_index : Z) (reward reward_orig : Q) (seed : Z).

(** The collaborators' state: the random sources, the environment, the
    checkpoint files, the key-value store with its lists, and the trace. *)
Record World := {
  random : Rand;
  env : Env;
  files : gmap string (gmap string (gmap string Tensor));
  kv : gmap string string;
  queues : gmap string (list string);
  trace : list Event;
}.

Record St := { self : Sampler; world : World }.

(** ** The monad of methods *)

Definition M (A : Type) : Type := St → res A * St.

Definition ret {A} (a : A) : M A := fun s => (Ok a, s).
Definition raise {A} (e : exn) : M A := fun s => (Raise e, s).
Definition bind {A B} (m : M A) (k : A → M B) : M B :=
  fun s => match m s with
           | (Ok a, s') => k a s'
           | (Raise e, s') => (Raise e, s')
           end.
Definition lift {A} (r : res A) : M A := fun s => (r, s).
Definition get_self : M Sampler := fun s => (Ok (self s), s).
Definition get_world : M World := fun s => (Ok (world s), s).
Definition put_self (x : Sampler) : M unit :=
  fun s => (Ok tt, {| self := x; world := world s |}).
Definition put_world (w : World) : M unit :=
  fun s => (Ok tt, {| self := self s; world := w |}).

#[global] Instance M_ret : MRet M := @ret.
#[global] Instance M_bind : MBind M := fun A B k m => bind m k.

(** ** Collaborator calls *)

Definition with_random (r : Rand) (w : World) : World :=
  {| random := r; env := env w; files := files w; kv := kv w;
     queues := queues w; trace := trace w |}.
Definition with_env (e : Env) (w : World) : World :=
  {| random := random w; env := e; files := files w; kv := kv w;
     queues := queues w; trace := trace w |}.
Definition with_queues (q : gmap string (list string)) (w : World) : World :=
  {| random := random w; env := env w; files := files w; kv := kv w;
     queues := q; trace := trace w |}.
Definition emit (ev : Event) (w : World) : World :=
  {| random := random w; env := env w; files := files w; kv := kv w;
     queues := queues w; trace := ev :: trace w |}.

(** [set_global_seeds(i)] of [catalyst.utils.misc]. *)
Definition set_global_seeds (i : Z) : M unit :=
  w ← get_world; put_world (emit (EvSeed i) (with_random (seed_all i) w)).

(** [random.randrange(n)]. *)
Definition random_randrange (n : Z) : M Z :=
  w ← get_world;
  let '(d, r) := randbelow n (random w) in
  put_world (with_random r w);; mret d.

(** [random.choice(seq)]: [seq[randbelow(len(seq))]], IndexError on an
    empty sequence. *)
Definition random_choice (seq : list Z) : M Z :=
  match seq with
  | [] => raise IndexError
  | _ =>
      i ← random_randrange (Z.of_nat (length seq));
      match seq !! Z.to_nat i with
      | Some x => mret x
      | None => raise IndexError
      end
  end.

(** [np.random.rand()]. *)
Definition np_random_rand : M Num :=
  w ← get_world;
  let '(u, r) := np_rand (random w) in
  put_world (with_random r w);; mret u.

(** [np.random.randint(n)]: a draw in [0, n) of the default integer type,
    which has 64 bits; ValueError unless [0 < n ≤ 2 ^ 63]. *)
Definition np_random_randint (n : Z) : M Z :=
  if decide (0 < n ≤ 2 ^ 63) then
    w ← get_world;
    let '(a, r) := np_randint n (random w) in
    put_world (with_random r w);; mret a
  else raise ValueError.

(** [self.env.reset()]. *)
Definition env_reset_call : M Obs :=
  w ← get_world;
  let '(o, e, r) := env_reset (env w) (random w) in
  put_world (emit (EvReset (random w)) (with_env e (with_random r w)));; mret o.

(** [self.env.step(action)]. *)
Definition env_step_call (action : Z) : M (Obs * Q * bool * option Q) :=
  w ← get_world;
  let '(out, e, r) := env_step (env w) action (random w) in
  put_world (emit (EvStep action) (with_env e (with_random r w)));; mret out.

(** [UtilsFactory.load_checkpoint(path)]: the dictionary stored in the
    file. *)
Definition load_checkpoint (path : string)
  : M (gmap string (gmap string Tensor)) :=
  w ← get_world;
  put_world (emit (EvLoadCheckpoint path) w);;
  match files w !! path with
  | Some checkpoint => mret checkpoint
  | None => raise FileNotFoundError
  end.

(** [self.redis_server.get(key)]: the value, or [None]. *)
Definition redis_get (key : string) : M (option string) :=
  w ← get_world;
  put_world (emit (EvGet key) w);; mret (kv w !! key).

(** [self.redis_server.rpush(key, value)]: append at the tail of the list
    under [key]. *)
Definition redis_rpush (key value : string) : M unit :=
  w ← get_world;
  put_world
    (emit (EvRpush key value)
       (with_queues (<[key := default [] (queues w !! key) ++ [value]]> (queues w)) w)).

(** The line printed at the end of an episode (lines 194-199). *)
Definition print_episode (episode_index step_index : Z)
    (reward reward_orig : Q) (seed : Z) : M unit :=
  w ← get_world;
  put_world (emit (EvPrint episode_index step_index reward reward_orig seed) w).

(** ** The estimator *)

(** Whether every given tensor has the size of the parameter of the same
    name, where the module has one. *)
Definition sizes_agree (weights state : gmap string Tensor) : bool :=
  forallb
    (fun kv : string * Tensor =>
       match state !! kv.1 with
       | Some t => bool_decide (tensor_shape kv.2 = tensor_shape t)
       | None => true
       end)
    (map_to_list weights).

(** [critic.load_state_dict(weights)] with torch's default [strict=True]:
    the names must be those of the module and the sizes those of its
    parameters, and then every parameter takes the given value. *)
Definition load_state_dict (weights : gmap string Tensor) (c : Critic)
  : res Critic :=
  if decide (dom weights = dom (state_dict c)
             ∧ sizes_agree weights (state_dict c) = true)
  then Ok {| state_dict := weights; training := training c |}
  else Raise RuntimeError.

(** [critic.eval()]. *)
Definition eval (c : Critic) : Critic :=
  {| state_dict := state_dict c; training := false |}.

(** [np.argmax]: the first index of the largest score; ValueError on an
    empty array. *)
Fixpoint argmax_from (best : Q) (best_i i : Z) (l : list Q) : Z :=
  match l with
  | [] => best_i
  | x :: l' =>
      if Qlt_le_dec best x then argmax_from x i (i + 1) l'
      else argmax_from best best_i (i + 1) l'
  end.

Definition argmax (l : list Q) : res Z :=
  match l with
  | [] => Raise ValueError
  | x :: l' => Ok (argmax_from x 0 1 l')
  end.

(** ** The episode buffer *)

(** Modelled from the spec: construction of an empty buffer. *)
Definition SamplerBuffer_new (cap : Z) : SamplerBuffer :=
  {| capacity := cap; frames := []; actions := []; rewards := []; dones := [] |}.

(** Modelled from the spec: [reset(initial_observation)] discards the
    contents and puts the observation in frame 0. *)
Definition init_with_observation (o : Obs) (b : SamplerBuffer) : SamplerBuffer :=
  {| capacity := capacity b; frames := [o]; actions := []; rewards := [];
     dones := [] |}.

(** Modelled from the spec: [state(history_len)], the last [history_len]
    frames, padded on the left with the earliest one. *)
Definition get_state (h : Z) (b : SamplerBuffer) : list Obs :=
  let n := Z.to_nat h in
  let have := length (frames b) in
  match frames b with
  | [] => []
  | first :: _ => replicate (n - have) first ++ drop (have - n) (frames b)
  end.

(** Modelled from the spec: [push], BufferOverflowError when the episode
    would exceed the capacity. *)
Definition push_transition (t : Obs * Z * Q * bool) (b : SamplerBuffer)
  : res SamplerBuffer :=
  let '(next_obs, action, reward, done) := t in
  if decide (Z.of_nat (length (actions b)) + 1 ≤ capacity b) then
    Ok {| capacity := capacity b;
          frames := frames b ++ [next_obs];
          actions := actions b ++ [action];
          rewards := rewards b ++ [reward];
          dones := dones b ++ [done] |}
  else Raise BufferOverflowError.

(** Modelled from the spec: [completeEpisode], the four parallel
    sequences; IncompleteEpisodeError unless the last done flag is set. *)
Definition get_complete_episode (b : SamplerBuffer)
  : res (list Obs * list Z * list Q * list bool) :=
  match last (dones b) with
  | Some true =>
      Ok (take (length (actions b)) (frames b), actions b, rewards b, dones b)
  | _ => Raise IncompleteEpisodeError
  end.

(** ** Sampler: attribute updates *)

Definition set_critic (c : Critic) (s : Sampler) : Sampler :=
  {| self_seed := self_seed s; self_sampler_id := self_sampler_id s;
     self_critic := c; self_redis_server := self_redis_server s;
     self_redis_prefix := self_redis_prefix s; self_resume := self_resume s;
     self_episode_limit := self_episode_limit s;
     self_force_store := self_force_store s;
     self_num_actions := self_num_actions s;
     self_history_len := self_history_len s;
     self_buffer_size := self_buffer_size s;
     self_weights_sync_period := self_weights_sync_period s;
     self_episode_index := self_episode_index s; self_eps := self_eps s;
     self_eps_final := self_eps_final s; self_eps_delta := self_eps_delta s;
     self_infer := self_infer s; self_seeds := self_seeds s;
     self_buffer := self_buffer s |}.

Definition set_episode_index (i : Z) (s : Sampler) : Sampler :=
  {| self_seed := self_seed s; self_sampler_id := self_sampler_id s;
     self_critic := self_critic s; self_redis_server := self_redis_server s;
     self_redis_prefix := self_redis_prefix s; self_resume := self_resume s;
     self_episode_limit := self_episode_limit s;
     self_force_store := self_force_store s;
     self_num_actions := self_num_actions s;
     self_history_len := self_history_len s;
     self_buffer_size := self_buffer_size s;
     self_weights_sync_period := self_weights_sync_period s;
     self_episode_index := i; self_eps := self_eps s;
     self_eps_final := self_eps_final s; self_eps_delta := self_eps_delta s;
     self_infer := self_infer s; self_seeds := self_seeds s;
     self_buffer := self_buffer s |}.

Definition set_eps (e : Num) (s : Sampler) : Sampler :=
  {| self_seed := self_seed s; self_sampler_id := self_sampler_id s;
     self_critic := self_critic s; self_redis_server := self_redis_server s;
     self_redis_prefix := self_redis_prefix s; self_resume := self_resume s;
     self_episode_limit := self_episode_limit s;
     self_force_store := self_force_store s;
     self_num_actions := self_num_actions s;
     self_history_len := self_history_len s;
     self_buffer_size := self_buffer_size s;
     self_weights_sync_period := self_weights_sync_period s;
     self_episode_index := self_episode_index s; self_eps := e;
     self_eps_final := self_eps_final s; self_eps_delta := self_eps_delta s;
     self_infer := self_infer s; self_seeds := self_seeds s;
     self_buffer := self_buffer s |}.

Definition set_buffer (b : SamplerBuffer) (s : Sampler) : Sampler :=
  {| self_seed := self_seed s; self_sampler_id := self_sampler_id s;
     self_critic := self_critic s; self_redis_server := self_redis_server s;
     self_redis_prefix := self_redis_prefix s; self_resume := self_resume s;
     self_episode_limit := self_episode_limit s;
     self_force_store := self_force_store s;
     self_num_actions := self_num_actions s;
     self_history_len := self_history_len s;
     self_buffer_size := self_buffer_size s;
     self_weights_sync_period := self_weights_sync_period s;
     self_episode_index := self_episode_index s; self_eps := self_eps s;
     self_eps_final := self_eps_final s; self_eps_delta := self_eps_delta s;
     self_infer := self_infer s; self_seeds := self_seeds s;
     self_buffer := b |}.

Definition update_self (f : Sampler → Sampler) : M unit :=
  s ← get_self; put_self (f s).

(** ** Sampler.__init__ (lines 39-101) *)

(** Python's [x or d] on an optional integer: [d] for [None] and for 0. *)
Definition int_or (x : option Z) (d : Z) : Z :=
  match x with
  | Some n => if decide (n = 0) then d else n
  | None => d
  end.

(** The constructor seeds the random sources with [42 + id] (line 62)
    before anything else; the division of line 83 raises when
    [exploration_annealing_steps] is 0, and is a float division
    otherwise.  It does not look at which weight backends were given. *)
Definition Sampler_init (critic : Critic) (cfg : Config) (w : World)
  : res Sampler * World :=
  let seed := 42 + id cfg in
  let w1 := emit (EvSeed seed) (with_random (seed_all seed) w) in
  if decide (exploration_annealing_steps cfg = 0)
  then (Raise ZeroDivisionError, w1)
  else
    (Ok {| self_seed := seed;
           self_sampler_id := id cfg;
           self_critic := critic;
           self_redis_server := redis_server cfg;
           self_redis_prefix := default EmptyString (redis_prefix cfg);
           self_resume := resume cfg;
           self_episode_limit := int_or (episode_limit cfg) (2 ^ 32 - 2);
           self_force_store := force_store cfg;
           self_num_actions := num_actions cfg;
           self_history_len := history_len cfg;
           self_buffer_size := buffer_size cfg;
           self_weights_sync_period := weights_sync_period cfg;
           self_episode_index := 0;
           self_eps := exploration_eps_init cfg;
           self_eps_final := exploration_eps_final cfg;
           self_eps_delta :=
             num_div_int
               (num_sub (exploration_eps_init cfg) (exploration_eps_final cfg))
               (exploration_annealing_steps cfg);
           self_infer := bool_decide (mode cfg = "infer"%string);
           self_seeds := seeds cfg;
           self_buffer := SamplerBuffer_new (buffer_size cfg) |},
     w1).

(** ** Sampler.load_critic_weights (lines 115-128) *)

Definition critic_weights_key (prefix : string) : string :=
  (prefix +:+ "_critic_weights")%string.

Definition install_weights (weights : gmap string Tensor) : M unit :=
  s ← get_self;
  c ← lift (load_state_dict weights (self_critic s));
  put_self (set_critic c s).

Definition load_critic_weights : M unit :=
  s ← get_self;
  match self_resume s with
  | Some path =>
      checkpoint ← load_checkpoint path;
      match checkpoint !! "critic_state_dict"%string with
      | Some weights => install_weights weights
      | None => raise KeyError
      end
  | None =>
      if self_redis_server s then
        blob ← redis_get (critic_weights_key (self_redis_prefix s));
        weights ← lift (deserialize blob);
        install_weights (to_tensor <$> weights)
      else raise NotImplementedError
  end;;
  update_self (fun s => set_critic (eval (self_critic s)) s).

(** ** Sampler.store_episode (lines 130-142) *)

Definition store_episode : M unit :=
  s ← get_self;
  if negb (self_redis_server s) then mret tt
  else
    episode ← lift (get_complete_episode (self_buffer s));
    redis_rpush "trajectories" (serialize episode).

(** ** Sampler.act (lines 144-151) *)

(** [self.critic(states)] (line 147): the scores, and the sampler and the
    world that the forward pass leaves.  In evaluation mode it leaves them
    as they are. *)
Definition forward (state : list Obs) (s : St) : list Q * St :=
  let c := self_critic (self s) in
  if training c then
    let '(scores, params, r) :=
      forward_train (state_dict c) state (random (world s)) in
    (scores,
     {| self := set_critic {| state_dict := params; training := true |} (self s);
        world := with_random r (world s) |})
  else (q_values (state_dict c) state, s).

Definition critic_call (state : list Obs) : M (list Q) :=
  fun s => (Ok (forward state s).1, (forward state s).2).

Definition act (state : list Obs) : M Z :=
  scores ← critic_call state;
  action ← lift (argmax scores);
  u ← np_random_rand;
  s ← get_self;
  if num_lt u (self_eps s) then np_random_randint (self_num_actions s)
  else mret action.

(** ** Sampler.run (lines 153-256) *)

(** The local variables of [run]. *)
Record Locals := {
  seed : Z;
  step_index : Z;
  episode_reward : Q;
  episode_reward_orig : Q;
  done : bool;
}.

(** Lines 156-175, and again lines 236-256: a fresh buffer, the two
    seedings, the environment reset, and the locals of a new episode. *)
Definition begin_episode : M Locals :=
  update_self (fun s => set_buffer (SamplerBuffer_new (self_buffer_size s)) s);;
  s ← get_self;
  d ← random_randrange SEED_RANGE;
  set_global_seeds (self_seed s + d);;
  seed ←
    match self_seeds s with
    | None => random_randrange SEED_RANGE
    | Some pool => random_choice pool
    end;
  set_global_seeds seed;;
  o ← env_reset_call;
  update_self (fun s => set_buffer (init_with_observation o (self_buffer s)) s);;
  mret {| seed := seed; step_index := 0; episode_reward := 0;
          episode_reward_orig := 0; done := false |}.

(** Lines 154-175. *)
Definition run_prologue : M Locals :=
  update_self (set_episode_index 1);;
  load_critic_weights;;
  begin_episode.

(** Python's [max(a, b)] on floats: [b] when [b > a], which is [a < b],
    and [a] otherwise. *)
Definition py_max (a b : Num) : Num := if num_lt a b then b else a.

(** Line 181. *)
Definition decay_eps (s : Sampler) : Sampler :=
  set_eps (py_max (num_sub (self_eps s) (self_eps_delta s)) (self_eps_final s))
    s.

(** Lines 179-188: the body of [while not done]. *)
Definition run_step (l : Locals) : M Locals :=
  s ← get_self;
  action ← act (get_state (self_history_len s) (self_buffer s));
  update_self decay_eps;;
  '(next_obs, reward, done, info) ← env_step_call action;
  s ← get_self;
  b ← lift (push_transition (next_obs, action, reward, done) (self_buffer s));
  put_self (set_buffer b s);;
  mret {| seed := seed l;
          step_index := step_index l + 1;
          episode_reward := (episode_reward l + reward)%Q;
          episode_reward_orig := (episode_reward_orig l + default 0%Q info)%Q;
          done := done |}.

(** Python's [a % b] on integers. *)
Definition py_mod (a b : Z) : res Z :=
  if decide (b = 0) then Raise ZeroDivisionError else Ok (a mod b).

(** Lines 190-228: the episode is stored when the sampler is not in infer
    mode or [force_store] is set, its line is printed, and the episode
    index goes up by one. *)
Definition run_episode_close (l : Locals) : M unit :=
  s ← get_self;
  (if negb (self_infer s) || self_force_store s then store_episode else mret tt);;
  print_episode (self_episode_index s) (step_index l) (episode_reward l)
    (episode_reward_orig l) (seed l);;
  update_self (fun s => set_episode_index (self_episode_index s + 1) s).

(** Lines 230-256: the [return] of line 231 is [None]; otherwise the
    periodic weight reload and the start of the next episode. *)
Definition run_episode_next : M (option Locals) :=
  s ← get_self;
  if decide (self_episode_limit s ≤ self_episode_index s) then mret None
  else
    r ← lift (py_mod (self_episode_index s) (self_weights_sync_period s));
    (if decide (r = 0) then load_critic_weights else mret tt);;
    l' ← begin_episode;
    mret (Some l').

(** Lines 190-256: what follows the inner loop. *)
Definition run_episode_end (l : Locals) : M (option Locals) :=
  run_episode_close l;; run_episode_next.

(** How a run stands: still looping (with the locals at the head of the
    inner loop), returned, or stopped by an exception. *)
Inductive Control :=
  | Running (l : Locals)
  | Returned
  | Raised (e : exn).

(** One turn of the loops of lines 177-256: a pass through the body of
    [while not done] when [done] is false, the rest of the outer body when
    it is true. *)
Definition run_turn (l : Locals) (s : St) : Control * St :=
  if done l then
    match run_episode_end l s with
    | (Ok (Some l'), s') => (Running l', s')
    | (Ok None, s') => (Returned, s')
    | (Raise e, s') => (Raised e, s')
    end
  else
    match run_step l s with
    | (Ok l', s') => (Running l', s')
    | (Raise e, s') => (Raised e, s')
    end.

(** The loops, cut after [fuel] turns. *)
Fixpoint run_loop (fuel : nat) (l : Locals) (s : St) : Control * St :=
  match fuel with
  | O => (Running l, s)
  | S fuel' =>
      match run_turn l s with
      | (Running l', s') => run_loop fuel' l' s'
      | stopped => stopped
      end
  end.

Definition run (fuel : nat) (s : St) : Control * St :=
  match run_prologue s with
  | (Ok l, s') => run_loop fuel l s'
  | (Raise e, s') => (Raised e, s')
  end.

(** Construction followed by [run]. *)
Definition construct_and_run (fuel : nat) (critic : Critic) (cfg : Config)
    (w : World) : Control * option Sampler * World :=
  match Sampler_init critic cfg w with
  | (Ok s, w') =>
      let '(c, st) := run fuel {| self := s; world := w' |} in
      (c, Some (self st), world st)
  | (Raise e, w') => (Raised e, None, w')
  end.

(** ** Reading a trace *)

(** The seeds applied, oldest first. *)
Definition seeds_applied (t : list Event) : list Z :=
  omap (fun ev => match ev with EvSeed i => Some i | _ => None end) (rev t).

(** The seed in force at each environment reset, oldest first: the last
    seed applied before it. *)
Fixpoint reset_seeds_from (last : option Z) (t : list Event) : list (option Z) :=
  match t with
  | [] => []
  | EvSeed i :: t' => reset_seeds_from (Some i) t'
  | EvReset _ :: t' => last :: reset_seeds_from last t'
  | _ :: t' => reset_seeds_from last t'
  end.
Definition reset_seeds (t : list Event) : list (option Z) :=
  reset_seeds_from None (rev t).

(** The number of environment steps. *)
Fixpoint steps_taken (t : list Event) : nat :=
  match t with
  | [] => O
  | EvStep _ :: t' => S (steps_taken t')
  | _ :: t' => steps_taken t'
  end.

(** The episode lines printed, oldest first, as (episode index, steps). *)
Definition episodes_printed (t : list Event) : list (Z * Z) :=
  omap (fun ev => match ev with
                  | EvPrint i n _ _ _ => Some (i, n)
                  | _ => None
                  end) (rev t).

(** The keys read from the store. *)
Definition keys_read (t : list Event) : list string :=
  omap (fun ev => match ev with EvGet k => Some k | _ => None end) (rev t).

(** The values pushed to the store's lists, oldest first. *)
Definition values_pushed (t : list Event) : list (string * string) :=
  omap (fun ev => match ev with EvRpush k v => Some (k, v) | _ => None end)
    (rev t).

(** ** The parameter set a load fetches *)

(** What the configured backend holds at the time of a load: the
    [critic_state_dict] entry of the checkpoint file, or the deserialized
    and converted value under the store key. *)
Definition fetched_weights (s : Sampler) (w : World)
  : option (gmap string Tensor) :=
  match self_resume s with
  | Some path =>
      match files w !! path with
      | Some checkpoint => checkpoint !! "critic_state_dict"%string
      | None => None
      end
  | None =>
      if self_redis_server s then
        match deserialize (kv w !! critic_weights_key (self_redis_prefix s)) with
        | Ok raw => Some (to_tensor <$> raw)
        | Raise _ => None
        end
      else None
  end.

(** ** What a state shows *)

(** The attributes and stores that [run] only reads. *)
Definition fixed (s : St) :=
  (self_seed (self s), self_seeds (self s), self_redis_server (self s),
   self_redis_prefix (self s), self_resume (self s),
   self_episode_limit (self s), self_force_store (self s),
   self_infer (self s), self_weights_sync_period (self s),
   self_eps_final (self s), self_eps_delta (self s),
   kv (world s), files (world s)).

(** The exploration rate and the number of environment steps so far. *)
Definition schedule (s : St) := (self_eps (self s), steps_taken (trace (world s))).

(** The episode index, the store's lists, what was pushed and what was
    printed so far. *)
Definition account (s : St) :=
  (self_episode_index (self s), queues (world s),
   values_pushed (trace (world s)), episodes_printed (trace (world s))).

(** Nothing of the above differs between the two states. *)
Definition quiet (s s' : St) : Prop :=
  fixed s' = fixed s ∧ schedule s' = schedule s ∧ account s' = account s.

(** Nothing that the schedule reads differs between the two states. *)
Definition steady (s s' : St) : Prop :=
  fixed s' = fixed s ∧ schedule s' = schedule s.

(** A computation whose end state is related to its start state, whether it
    returns or raises. *)
Definition keeps_at (R : St → St → Prop) {A} (m : M A) (s : St) : Prop :=
  R s (m s).2.
Definition keeps (R : St → St → Prop) {A} (m : M A) : Prop :=
  ∀ s, keeps_at R m s.

(** ** Episode accounting *)

(** Whether a finished episode goes to the trajectory queue: there is a
    store handle, and the sampler is not in infer mode or [force_store] is
    set (lines 131 and 191). *)
Definition storing (s : Sampler) : bool :=
  self_redis_server s && (negb (self_infer s) || self_force_store s).

(** Between the two states some episodes were printed and some values
    pushed, all under the key [trajectories]: one value per printed
    episode when the sampler is storing, none when it is not.  Without a
    store handle the lists of the store are untouched. *)
Definition tallied (s s' : St) : Prop :=
  fixed s' = fixed s
  ∧ ∃ pushed printed,
      values_pushed (trace (world s')) = values_pushed (trace (world s)) ++ pushed
      ∧ episodes_printed (trace (world s'))
        = episodes_printed (trace (world s)) ++ printed
      ∧ Forall (fun p => p.1 = "trajectories"%string) pushed
      ∧ length pushed = (if storing (self s) then length printed else O)
      ∧ (self_redis_server (self s) = false →
         queues (world s') = queues (world s)).

(** At the head of the loops: the episode index is one more than the number
    of episodes printed since the trace held [n0] of them, it is at least
    1, and it is either still 1 or below the limit. *)
Definition counted (n0 : nat) (s : St) : Prop :=
  Z.of_nat (length (episodes_printed (trace (world s))))
  = Z.of_nat n0 + (self_episode_index (self s) - 1)
  ∧ 1 ≤ self_episode_index (self s)
  ∧ (self_episode_index (self s) = 1
     ∨ self_episode_index (self s) < self_episode_limit (self s)).

(** ** The exploration schedule *)

(** One update of line 181, for a step [delta] and a floor [final]. *)
Definition eps_update (delta final e : Num) : Num :=
  py_max (num_sub e delta) final.

(** The exploration rate is what the updates make of [e0], one for each
    environment step since the trace held [n0] of them. *)
Definition on_pace (e0 : Num) (n0 : nat) (s : St) : Prop :=
  (n0 ≤ steps_taken (trace (world s)))%nat
  ∧ self_eps (self s)
    = Nat.iter (steps_taken (trace (world s)) - n0)
        (eps_update (self_eps_delta (self s)) (self_eps_final (self s))) e0.

(** The second state is no earlier than the first, and if the first is on
    pace so is the second. *)
Definition paced (e0 : Num) (n0 : nat) (s s' : St) : Prop :=
  fixed s' = fixed s
  ∧ (steps_taken (trace (world s)) ≤ steps_taken (trace (world s')))%nat
  ∧ (on_pace e0 n0 s → on_pace e0 n0 s').

(** ** The seeding protocol, read off a trace *)

(** An episode seed is a member of the pool when there is one, and below
    [SEED_RANGE] otherwise. *)
Definition episode_seed_ok (pool : option (list Z)) (seed : Z) : Prop :=
  match pool with
  | None => 0 ≤ seed < SEED_RANGE
  | Some p => seed ∈ p
  end.

(** In a trace (newest first), every environment reset comes right after
    the application of an episode seed, which comes right after the
    application of [base] plus a draw below [SEED_RANGE]; and the
    environment finds the random sources as the episode seed left them. *)
Fixpoint resets_seeded (base : Z) (pool : option (list Z)) (t : list Event)
  : Prop :=
  match t with
  | [] => True
  | EvReset found :: t' =>
      match t' with
      | EvSeed seed :: EvSeed first :: _ =>
          0 ≤ first - base < SEED_RANGE
          ∧ episode_seed_ok pool seed
          ∧ found = seed_all seed
      | _ => False
      end
      ∧ resets_seeded base pool t'
  | _ :: t' => resets_seeded base pool t'
  end.

(** The seeding attributes are untouched and the events added to the trace
    follow the protocol. *)
Definition seeded (s s' : St) : Prop :=
  self_seed (self s') = self_seed (self s)
  ∧ self_seeds (self s') = self_seeds (self s)
  ∧ ∃ new,
      trace (world s') = new ++ trace (world s)
      ∧ resets_seeded (self_seed (self s)) (self_seeds (self s)) new.

(** The state in which [run] is called on a freshly built sampler. *)
Definition constructed (critic : Critic) (cfg : Config) (w : World)
  : option St :=
  match Sampler_init critic cfg w with
  | (Ok s, w') => Some {| self := s; world := w' |}
  | (Raise _, _) => None
  end.

(** ** The module-level helpers (lines 22-35) *)

(** Python's [x in key] on strings: [x] occurs somewhere in [key]. *)
Fixpoint contains (x key : string) : bool :=
  String.prefix x key
  || match key with
     | EmptyString => false
     | String _ rest => contains x rest
     end.

(** [all(x not in key for x in ["norm", "lstm"])] (line 28). *)
Definition plain_key (key : string) : bool :=
  forallb (fun x => negb (contains x key)) ["norm"; "lstm"]%string.

(** [get_critic_weights] (lines 22-31): the state dict, without the
    entries whose name contains [norm] or [lstm] when [exclude_norm] is
    set; [value.clone()] copies a tensor, which leaves its value. *)
Definition get_critic_weights (critic : Critic) (exclude_norm : bool)
  : gmap string Tensor :=
  let state := state_dict critic in
  let state :=
    if exclude_norm
    then filter (fun kv : string * Tensor => plain_key kv.1 = true) state
    else state in
  (fun value => value) <$> state.

(** [critic.load_state_dict(weights, strict=strict)]: with [strict] as
    [load_state_dict]; without, every parameter of the module that the
    given mapping names takes the given value, the others keep theirs, and
    names the module does not have are ignored.  A tensor of another size
    than the parameter of its name is a RuntimeError in both cases. *)
Definition load_state_dict_with (strict : bool)
    (weights : gmap string Tensor) (c : Critic) : res Critic :=
  if strict then load_state_dict weights c
  else if sizes_agree weights (state_dict c) then
    Ok {| state_dict :=
            map_imap (fun k v => Some (default v (weights !! k))) (state_dict c);
          training := training c |}
  else Raise RuntimeError.

(** [set_critic_weights] (lines 34-35). *)
Definition set_critic_weights (critic : Critic)
    (weights : gmap string Tensor) (strict : bool) : res Critic :=
  load_state_dict_with strict weights critic.

(** ** More to read off a trace *)

(** The number of environment resets. *)
Fixpoint resets_done (t : list Event) : nat :=
  match t with
  | [] => O
  | EvReset _ :: t' => S (resets_done t')
  | _ :: t' => resets_done t'
  end.

(** The number of reads of a weight backend: checkpoint reads and store
    GETs. *)
Fixpoint loads_done (t : list Event) : nat :=
  match t with
  | [] => O
  | EvLoadCheckpoint _ :: t' => S (loads_done t')
  | EvGet _ :: t' => S (loads_done t')
  | _ :: t' => loads_done t'
  end.

(** The steps of the printed episodes, added up. *)
Definition steps_printed (t : list Event) : Z :=
  foldr Z.add 0 (snd <$> episodes_printed t).

(** The number of episode indices from 2 to [i] that the sync period
    divides: the reloads of line 234 due by the time episode [i] starts. *)
Definition reloads_due (period i : Z) : nat :=
  length (filter (fun k => k mod period = 0) (seqZ 2 (i - 1))).

(** The books at the head of the loops, for the events [new] added since
    [run] was called: the episodes printed are numbered from 1 up to the
    one before the current, there has been one reset more than episodes
    printed, the steps printed and the steps of the current episode add up
    to the steps taken, and the weights were read once at the start and
    once for each reload due.  With a sync period of 0 the current episode
    is the first. *)
Definition booked (new : list Event) (l : Locals) (s : Sampler) : Prop :=
  1 ≤ self_episode_index s
  ∧ (episodes_printed new).*1 = seqZ 1 (self_episode_index s - 1)
  ∧ resets_done new = S (length (episodes_printed new))
  ∧ 0 ≤ step_index l
  ∧ steps_printed new + step_index l = Z.of_nat (steps_taken new)
  ∧ loads_done new
    = S (reloads_due (self_weights_sync_period s) (self_episode_index s))
  ∧ (self_weights_sync_period s = 0 → self_episode_index s = 1)
  ∧ (self_episode_index s = 1
     ∨ self_episode_index s < self_episode_limit s).

(** The books when [run] has returned. *)
Definition closed (new : list Event) (s : Sampler) : Prop :=
  2 ≤ self_episode_index s
  ∧ (episodes_printed new).*1 = seqZ 1 (self_episode_index s - 1)
  ∧ resets_done new = length (episodes_printed new)
  ∧ steps_printed new = Z.of_nat (steps_taken new)
  ∧ loads_done new
    = S (reloads_due (self_weights_sync_period s) (self_episode_index s - 1))
  ∧ (self_weights_sync_period s = 0 → self_episode_index s = 2)
  ∧ self_episode_limit s ≤ self_episode_index s.

(** The trace is the same in the two states. *)
Definition silent (s s' : St) : Prop :=
  trace (world s') = trace (world s).

(** The steps of the episode in progress, and whether there is one. *)
Definition steps_in_hand (c : Control) : Z :=
  match c with
  | Running l => step_index l
  | _ => 0
  end.

Definition episodes_open (c : Control) : nat :=
  match c with
  | Running _ => 1
  | _ => 0
  end.

(** Whether a run was stopped by an exception. *)
Definition raised (c : Control) : bool :=
  match c with
  | Raised _ => true
  | _ => false
  end.

(** The books of a run that has not raised. *)
Definition books (new : list Event) (c : Control) (s : Sampler) : Prop :=
  match c with
  | Running l => booked new l s
  | Returned => closed new s
  | Raised _ => True
  end.

(** What [run] may do to the store: the list [trajectories] has grown at
    its tail by the values pushed, in the order of the pushes, and every
    other list is as it was. *)
Definition appended (s s' : St) : Prop :=
  ∃ values,
    values_pushed (trace (world s'))
    = values_pushed (trace (world s)) ++ (("trajectories"%string,.) <$> values)
    ∧ default [] (queues (world s') !! "trajectories"%string)
      = default [] (queues (world s) !! "trajectories"%string) ++ values
    ∧ ∀ k, k ≠ "trajectories"%string →
           queues (world s') !! k = queues (world s) !! k.

(** Evaluation mode is not left: if the estimator is in evaluation mode in
    the first state, it is in the second. *)
Definition settled (s s' : St) : Prop :=
  training (self_critic (self s)) = false →
  training (self_critic (self s')) = false.

End Model.

(** ** What the schedule needs of the arithmetic

    Seven facts about [<], [-] and the division by a positive integer,
    with a zero and the test for NaN to state them.  They are stated so
    that they hold of every IEEE 754 double under round-to-nearest,
    infinities and NaN included: a comparison with NaN is false, NaN less
    anything is NaN, and rounding keeps the order and the sign of an exact
    result.  Exact rationals, none of which is NaN, satisfy them too.
    - [num_lt_asym]: [x < y] excludes [y < x].
    - [num_lt_nan]: NaN is below nothing and nothing is below it.
    - [num_lt_trans]: if [a] is not below [b] nor [b] below [c], and [b]
      is a number, [a] is not below [c].
    - [num_sub_nan]: [x - d] is NaN when [x] is.
    - [num_sub_le]: if [d] is not negative, [x] is not below [x - d].
    - [num_sub_pos]: if [y < x], [x - y] is not negative.
    - [num_div_nonneg]: if [x] is not negative and [n] is positive,
      [x / n] is not negative. *)
Class FloatOrder `{C : Collaborators} := {
  num_zero : Num;
  num_nan : Num → bool;
  num_lt_asym : ∀ x y, num_lt x y = true → num_lt y x = false;
  num_lt_nan : ∀ x y,
    num_nan x = true → num_lt x y = false ∧ num_lt y x = false;
  num_lt_trans : ∀ a b c,
    num_nan b = false →
    num_lt a b = false → num_lt b c = false → num_lt a c = false;
  num_sub_nan : ∀ x d, num_nan x = true → num_nan (num_sub x d) = true;
  num_sub_le : ∀ x d, num_lt d num_zero = false → num_lt x (num_sub x d) = false;
  num_sub_pos : ∀ x y, num_lt y x = true → num_lt (num_sub x y) num_zero = false;
  num_div_nonneg : ∀ x n,
    num_lt x num_zero = false → 0 < n →
    num_lt (num_div_int x n) num_zero = false;
}.

(** ** A stub world

    A concrete set of collaborators to run the sampler on: an environment
    whose every episode lasts exactly five steps whatever the action, an
    estimator that gives every action the same score (and, in training
    mode, counts its forward passes in the entries named [norm]), tensors
    that are vectors of integers, a linear congruential generator for the
    random sources, exact rationals for the floats, and a codec that
    writes an episode as its done flags. *)
Module Stub.

Definition lcg (g : Z) : Z := (g * 1103515245 + 12345) mod 2 ^ 31.

Definition flags (ds : list bool) : string :=
  fold_right (fun (d : bool) acc => String (if d then "1" else "0")%char acc)
    EmptyString ds.

#[local] Instance collaborators : Collaborators := {|
  Obs := Z;
  Raw := Z;
  Tensor := list Z;
  Rand := Z;
  Env := Z;
  Num := Q;
  num_sub := Qminus;
  num_div_int := fun x n => (x / inject_Z n)%Q;
  num_lt := fun x y => if Qlt_le_dec x y then true else false;
  seed_all := fun i => i;
  randbelow := fun n g => (g mod n, lcg g);
  randbelow_range := fun n g H => Z.mod_pos_bound g n H;
  np_rand := fun g => ((g mod 100) # 100, lcg g);
  np_randint := fun n g => (g mod n, lcg g);
  env_reset := fun _ g => (0, 0, g);
  env_step := fun e _ g => ((e + 1, 1%Q, bool_decide (5 ≤ e + 1), None), e + 1, g);
  q_values := fun _ _ => [1%Q; 1%Q];
  forward_train := fun params _ g =>
    ([1%Q; 1%Q],
     map_imap
       (fun k t => Some (if contains "norm" k then Z.succ <$> t else t)) params,
     g);
  tensor_shape := fun t => [Z.of_nat (length t)];
  to_tensor := fun x => [x];
  serialize := fun '(_, _, _, ds) => flags ds;
  deserialize := fun blob =>
    match blob with
    | None => Raise TypeError
    | Some EmptyString => Raise ValueError
    | Some s => Ok {[ "w"%string := Z.of_nat (String.length s) ]}
    end;
|}.

Definition critic0 : Critic :=
  {| state_dict := {[ "w"%string := [0] ]}; training := true |}.

Definition checkpoint_path : string := "critic.pth".

(** A world with one checkpoint file and an empty store. *)
Definition world0 (g : Z) : World :=
  {| random := g;
     env := 0;
     files := {[ checkpoint_path := {[ "critic_state_dict"%string := {[ "w"%string := [7] ]} ]} ]};
     kv := ∅;
     queues := ∅;
     trace := [] |}.

(** The constructor's defaults (lines 44-58), with a checkpoint, a store
    handle and [episode_limit = 3]. *)
Definition config3 : Config :=
  {| id := 0;
     num_actions := 1;
     redis_server := true;
     redis_prefix := None;
     buffer_size := 10000;
     history_len := 1;
     weights_sync_period := 1;
     mode := "train";
     resume := Some checkpoint_path;
     exploration_eps_init := 1%Q;
     exploration_eps_final := (5 # 100)%Q;
     exploration_annealing_steps := 1000000;
     seeds := None;
     episode_limit := Some 3;
     force_store := false |}.


(** [config3] with the store as the only weight backend. *)
Definition config_store : Config :=
  {| id := 0; num_actions := 1; redis_server := true; redis_prefix := None;
     buffer_size := 10000; history_len := 1; weights_sync_period := 1;
     mode := "train"; resume := None;
     exploration_eps_init := 1%Q; exploration_eps_final := (5 # 100)%Q;
     exploration_annealing_steps := 1000000; seeds := None;
     episode_limit := Some 3; force_store := false |}.

(** [config3] with a checkpoint but no store handle. *)
Definition config_no_store : Config :=
  {| id := 0; num_actions := 1; redis_server := false; redis_prefix := None;
     buffer_size := 10000; history_len := 1; weights_sync_period := 1;
     mode := "train"; resume := Some checkpoint_path;
     exploration_eps_init := 1%Q; exploration_eps_final := (5 # 100)%Q;
     exploration_annealing_steps := 1000000; seeds := None;
     episode_limit := Some 3; force_store := false |}.

(** [config3] in a mode that is neither [train] nor [infer]. *)
Definition config_valid_mode : Config :=
  {| id := 0; num_actions := 1; redis_server := true; redis_prefix := None;
     buffer_size := 10000; history_len := 1; weights_sync_period := 1;
     mode := "valid"; resume := Some checkpoint_path;
     exploration_eps_init := 1%Q; exploration_eps_final := (5 # 100)%Q;
     exploration_annealing_steps := 1000000; seeds := None;
     episode_limit := Some 3; force_store := false |}.

(** [config3] with a sync period of 0 and a limit of 5 episodes. *)
Definition config_zero_period : Config :=
  {| id := 0; num_actions := 1; redis_server := true; redis_prefix := None;
     buffer_size := 10000; history_len := 1; weights_sync_period := 0;
     mode := "train"; resume := Some checkpoint_path;
     exploration_eps_init := 1%Q; exploration_eps_final := (5 # 100)%Q;
     exploration_annealing_steps := 1000000; seeds := None;
     episode_limit := Some 5; force_store := false |}.

(** [config3] with a seed pool that is empty. *)
Definition config_empty_pool : Config :=
  {| id := 0; num_actions := 1; redis_server := true; redis_prefix := None;
     buffer_size := 10000; history_len := 1; weights_sync_period := 1;
     mode := "train"; resume := Some checkpoint_path;
     exploration_eps_init := 1%Q; exploration_eps_final := (5 # 100)%Q;
     exploration_annealing_steps := 1000000; seeds := Some [];
     episode_limit := Some 3; force_store := false |}.

(** [config3] with four annealing steps, a sync period of 2 and a limit of
    5 episodes. *)
Definition config_fast_annealing : Config :=
  {| id := 0; num_actions := 1; redis_server := true; redis_prefix := None;
     buffer_size := 10000; history_len := 1; weights_sync_period := 2;
     mode := "train"; resume := Some checkpoint_path;
     exploration_eps_init := 1%Q; exploration_eps_final := (5 # 100)%Q;
     exploration_annealing_steps := 4; seeds := None;
     episode_limit := Some 5; force_store := false |}.

(** A sampler object with every attribute blank. *)
Definition blank : Sampler :=
  {| self_seed := 0; self_sampler_id := 0; self_critic := critic0;
     self_redis_server := false; self_redis_prefix := EmptyString;
     self_resume := None; self_episode_limit := 0; self_force_store := false;
     self_num_actions := 0; self_history_len := 0; self_buffer_size := 0;
     self_weights_sync_period := 0; self_episode_index := 0; self_eps := 0%Q;
     self_eps_final := 0%Q; self_eps_delta := 0%Q; self_infer := false;
     self_seeds := None; self_buffer := SamplerBuffer_new 0 |}.

(** The freshly built sampler for a configuration, in the stub world. *)
Definition fresh (cfg : Config) (w : World) : St :=
  default {| self := blank; world := w |} (constructed critic0 cfg w).

(** The stub world with weights in the store under the given key. *)
Definition world_with_key (key value : string) : World :=
  {| random := 0; env := 0; files := ∅; kv := {[ key := value ]};
     queues := ∅; trace := [] |}.

End Stub.

(** ** The stub world with the floats of the source

    The same collaborators, with IEEE 754 binary64 numbers, as Python's
    floats are: 53 bits of precision, round to nearest with ties to even.
    A number is a [spec_float]: a sign, a mantissa and a binary
    exponent. *)
Module Binary64.

Definition prec : Z := 53.
Definition emax : Z := 1024.

(** An integer as a float. *)
Definition of_int (n : Z) : SpecFloat.spec_float :=
  SpecFloat.binary_normalize prec emax n 0 false.

Definition sub : SpecFloat.spec_float → SpecFloat.spec_float → SpecFloat.spec_float :=
  SpecFloat.SFsub prec emax.
Definition mul : SpecFloat.spec_float → SpecFloat.spec_float → SpecFloat.spec_float :=
  SpecFloat.SFmul prec emax.
Definition div : SpecFloat.spec_float → SpecFloat.spec_float → SpecFloat.spec_float :=
  SpecFloat.SFdiv prec emax.

#[local] Instance collaborators : Collaborators := {|
  Obs := Z;
  Raw := Z;
  Tensor := list Z;
  Rand := Z;
  Env := Z;
  Num := SpecFloat.spec_float;
  num_sub := sub;
  num_div_int := fun x n => div x (of_int n);
  num_lt := SpecFloat.SFltb;
  seed_all := fun i => i;
  randbelow := fun n g => (g mod n, Stub.lcg g);
  randbelow_range := fun n g H => Z.mod_pos_bound g n H;
  np_rand := fun g => (div (of_int (g mod 100)) (of_int 100), Stub.lcg g);
  np_randint := fun n g => (g mod n, Stub.lcg g);
  env_reset := fun _ g => (0, 0, g);
  env_step := fun e _ g => ((e + 1, 1%Q, bool_decide (5 ≤ e + 1), None), e + 1, g);
  q_values := fun _ _ => [1%Q; 1%Q];
  forward_train := fun params _ g => ([1%Q; 1%Q], params, g);
  tensor_shape := fun t => [Z.of_nat (length t)];
  to_tensor := fun x => [x];
  serialize := fun '(_, _, _, ds) => Stub.flags ds;
  deserialize := fun _ => Raise TypeError;
|}.

(** The literal [0.05]: the double nearest to 1/20, 0x1.999999999999ap-5. *)
Definition one_twentieth : SpecFloat.spec_float :=
  SpecFloat.S754_finite false 7205759403792794 (-57).

Definition critic0 : Critic :=
  {| state_dict := {[ "w"%string := [0] ]}; training := true |}.

Definition world0 : World :=
  {| random := 0;
     env := 0;
     files := {[ "critic.pth"%string :=
                   {[ "critic_state_dict"%string := {[ "w"%string := [7] ]} ]} ]};
     kv := ∅;
     queues := ∅;
     trace := [] |}.

(** The constructor's defaults (lines 44-58) with a checkpoint to load,
    for a given number of annealing steps; [eps_init] is 1 and
    [eps_final] is 0.05. *)
Definition config (annealing_steps : Z) : Config :=
  {| id := 0; num_actions := 1; redis_server := false; redis_prefix := None;
     buffer_size := 10000; history_len := 1; weights_sync_period := 1;
     mode := "infer"; resume := Some "critic.pth"%string;
     exploration_eps_init := of_int 1;
     exploration_eps_final := one_twentieth;
     exploration_annealing_steps := annealing_steps;
     seeds := None; episode_limit := None; force_store := false |}.

(** The exploration rate after a run of [fuel] turns on a freshly built
    sampler, and the number of environment steps of that run; [None] when
    the constructor raises. *)
Definition eps_after (cfg : Config) (fuel : nat)
  : option (SpecFloat.spec_float * nat) :=
  st ← constructed critic0 cfg world0;
  let st' := (run fuel st).2 in
  Some (self_eps (self st'), steps_taken (trace (world st'))).

(** Python's [max(eps_init - N * delta, eps_final)] for a configuration. *)
Definition closed_form (cfg : Config) (N : Z) : SpecFloat.spec_float :=
  let delta :=
    div (sub (exploration_eps_init cfg) (exploration_eps_final cfg))
      (of_int (exploration_annealing_steps cfg)) in
  py_max (sub (exploration_eps_init cfg) (mul (of_int N) delta))
    (exploration_eps_final cfg).

(** A sample of doubles: zeros, the smallest and the largest, numbers
    around 1, the infinities and NaN. *)
Definition samples : list SpecFloat.spec_float :=
  [ SpecFloat.S754_zero false; SpecFloat.S754_zero true;
    SpecFloat.S754_finite false 1 (-1074);
    SpecFloat.S754_finite true 1 (-1074);
    SpecFloat.S754_finite false 4503599627370496 (-1074);
    one_twentieth;
    SpecFloat.S754_finite false 9007199254740991 (-53);
    of_int 1;
    SpecFloat.S754_finite false 4503599627370497 (-52);
    SpecFloat.S754_finite true 4503599627370497 (-52);
    of_int 3;
    of_int (-7);
    of_int (2 ^ 53 + 1);
    SpecFloat.S754_finite false 9007199254740991 971;
    SpecFloat.S754_finite true 9007199254740991 971;
    SpecFloat.S754_infinity false; SpecFloat.S754_infinity true;
    SpecFloat.S754_nan ].

End Binary64.


(** * Properties *)

Ltac unfold_monad :=
  unfold mbind, M_bind, mret, M_ret, bind, ret, raise, lift, update_self,
    get_self, get_world, put_self, put_world in *.

Section LoadProperties.
Context `{C : Collaborators}.

Lemma sizes_agree_spec (weights state : gmap string Tensor) :
  sizes_agree weights state = true
  ↔ ∀ k t t',
      weights !! k = Some t → state !! k = Some t' →
      tensor_shape t = tensor_shape t'.
Proof.
  unfold sizes_agree. rewrite forallb_forall. split.
  - intros H k t t' Hw Hs.
    specialize (H (k, t)). simpl in H. rewrite Hs in H.
    eapply bool_decide_eq_true_1, H. apply list_elem_of_In.
    by apply elem_of_map_to_list.
  - intros H [k t] Hin. simpl.
    apply list_elem_of_In, elem_of_map_to_list in Hin.
    destruct (state !! k) as [t'|] eqn:Hs; [|done].
    apply bool_decide_eq_true_2. by eapply H.
Qed.

Lemma sizes_agree_refl (state : gmap string Tensor) :
  sizes_agree state state = true.
Proof. apply sizes_agree_spec. intros k t t' H1 H2. congruence. Qed.

(** What [load_critic_weights] does when a checkpoint path is set, whatever
    the store handle. *)
Lemma load_critic_weights_resume (st : St) (path : string) :
  self_resume (self st) = Some path →
  load_critic_weights st =
    let w := emit (EvLoadCheckpoint path) (world st) in
    match files (world st) !! path with
    | None => (Raise FileNotFoundError, {| self := self st; world := w |})
    | Some checkpoint =>
        match checkpoint !! "critic_state_dict"%string with
        | None => (Raise KeyError, {| self := self st; world := w |})
        | Some weights =>
            match load_state_dict weights (self_critic (self st)) with
            | Raise e => (Raise e, {| self := self st; world := w |})
            | Ok c => (Ok tt, {| self := set_critic (eval c) (self st); world := w |})
            end
        end
    end.
Proof.
  intros Hr. unfold load_critic_weights, load_checkpoint, install_weights.
  unfold_monad. simpl. rewrite Hr. simpl.
  destruct (files (world st) !! path) as [ck|]; simpl; [|done].
  destruct (ck !! "critic_state_dict"%string) as [wts|]; simpl; [|done].
  destruct (load_state_dict wts (self_critic (self st))); simpl; done.
Qed.

(** What [load_critic_weights] does when only the store is configured. *)
Lemma load_critic_weights_store (st : St) :
  self_resume (self st) = None →
  self_redis_server (self st) = true →
  load_critic_weights st =
    let key := critic_weights_key (self_redis_prefix (self st)) in
    let w := emit (EvGet key) (world st) in
    match deserialize (kv (world st) !! key) with
    | Raise e => (Raise e, {| self := self st; world := w |})
    | Ok raw =>
        match load_state_dict (to_tensor <$> raw) (self_critic (self st)) with
        | Raise e => (Raise e, {| self := self st; world := w |})
        | Ok c => (Ok tt, {| self := set_critic (eval c) (self st); world := w |})
        end
    end.
Proof.
  intros Hr Hs. unfold load_critic_weights, redis_get, install_weights.
  unfold_monad. simpl. rewrite Hr, Hs. simpl.
  destruct (deserialize _); simpl; [|done].
  destruct (load_state_dict _ _); simpl; done.
Qed.

(** With no backend at all the load raises NotImplementedError and touches
    nothing. *)
Lemma load_critic_weights_none (st : St) :
  self_resume (self st) = None →
  self_redis_server (self st) = false →
  load_critic_weights st = (Raise NotImplementedError, st).
Proof.
  intros Hr Hs. unfold load_critic_weights. unfold_monad. simpl.
  rewrite Hr, Hs. by destruct st.
Qed.

End LoadProperties.

Section TraceReaders.
Context `{C : Collaborators}.

Lemma keys_read_cons (ev : Event) (t : list Event) :
  keys_read (ev :: t)
  = keys_read t ++ match ev with EvGet k => [k] | _ => [] end.
Proof. unfold keys_read. simpl. rewrite omap_app. by destruct ev. Qed.

Lemma values_pushed_cons (ev : Event) (t : list Event) :
  values_pushed (ev :: t)
  = values_pushed t ++ match ev with EvRpush k v => [(k, v)] | _ => [] end.
Proof. unfold values_pushed. simpl. rewrite omap_app. by destruct ev. Qed.

Lemma episodes_printed_cons (ev : Event) (t : list Event) :
  episodes_printed (ev :: t)
  = episodes_printed t
    ++ match ev with EvPrint i n _ _ _ => [(i, n)] | _ => [] end.
Proof. unfold episodes_printed. simpl. rewrite omap_app. by destruct ev. Qed.

End TraceReaders.

Section LoadClaims.
Context `{C : Collaborators}.

(** C8.  After a successful weight load the estimator holds exactly the
    fetched parameter set (the whole mapping, nothing kept from the old one,
    nothing filtered out) and is in evaluation mode; no other attribute of
    the sampler has changed. *)
Theorem load_installs_fetched_weights (st st' : St) :
  load_critic_weights st = (Ok tt, st') →
  ∃ weights,
    fetched_weights (self st) (world st) = Some weights
    ∧ state_dict (self_critic (self st')) = weights
    ∧ training (self_critic (self st')) = false
    ∧ self st' =
        set_critic {| state_dict := weights; training := false |} (self st).
Proof.
  intros Hload. unfold fetched_weights.
  destruct (self_resume (self st)) as [path|] eqn:Hr.
  - rewrite (load_critic_weights_resume st path Hr) in Hload. simpl in Hload.
    destruct (files (world st) !! path) as [ck|]; [|discriminate].
    destruct (ck !! "critic_state_dict"%string) as [wts|]; [|discriminate].
    unfold load_state_dict in Hload.
    destruct (decide _); [|discriminate].
    injection Hload as <-. exists wts. auto.
  - destruct (self_redis_server (self st)) eqn:Hs.
    + rewrite (load_critic_weights_store st Hr Hs) in Hload. simpl in Hload.
      destruct (deserialize _) as [raw|]; [|discriminate].
      unfold load_state_dict in Hload.
      destruct (decide _); [|discriminate].
      injection Hload as <-. exists (to_tensor <$> raw). auto.
    + rewrite (load_critic_weights_none st Hr Hs) in Hload. discriminate.
Qed.

(** C10.  With a checkpoint path and a store handle both set, a weight load
    makes one outside call, the read of the checkpoint file: no key is read
    from the store and the store is left as it was.  The load succeeds
    exactly when the file holds a [critic_state_dict] with the estimator's
    parameter names and sizes, and then installs it; being handed two
    backends is no error. *)
Theorem load_prefers_checkpoint (st : St) (path : string) :
  self_resume (self st) = Some path →
  self_redis_server (self st) = true →
  let r := (load_critic_weights st).1 in
  let st' := (load_critic_weights st).2 in
  trace (world st') = EvLoadCheckpoint path :: trace (world st)
  ∧ keys_read (trace (world st')) = keys_read (trace (world st))
  ∧ kv (world st') = kv (world st)
  ∧ queues (world st') = queues (world st)
  ∧ (r = Ok tt ↔
       ∃ checkpoint weights,
         files (world st) !! path = Some checkpoint
         ∧ checkpoint !! "critic_state_dict"%string = Some weights
         ∧ dom weights = dom (state_dict (self_critic (self st)))
         ∧ sizes_agree weights (state_dict (self_critic (self st))) = true)
  ∧ (r = Ok tt →
       fetched_weights (self st) (world st)
       = Some (state_dict (self_critic (self st')))).
Proof.
  intros Hr Hs. simpl. rewrite (load_critic_weights_resume st path Hr).
  unfold fetched_weights. rewrite Hr. simpl.
  destruct (files (world st) !! path) as [ck|]; simpl.
  2:{ rewrite keys_read_cons, app_nil_r.
      split_and!; try done. split; [done|]. intros (? & ? & ? & _); done. }
  destruct (ck !! "critic_state_dict"%string) as [wts|] eqn:Hw; simpl.
  2:{ rewrite keys_read_cons, app_nil_r. split_and!; try done. split; [done|].
      intros (? & ? & ? & ? & _). simplify_eq. }
  unfold load_state_dict. destruct (decide _) as [[Hd Hz]|Hd]; simpl.
  all: rewrite keys_read_cons, app_nil_r.
  - split_and!; try done. split; [|done]. intros _. by exists ck, wts.
  - split_and!; try done. split; [done|].
    intros (? & ? & ? & ? & Hd' & Hz'). simplify_eq. by destruct Hd.
Qed.

(** C7 (as amended).  When the store is the backend, the key read is
    [{prefix}_critic_weights], and if the codec rejects what the GET
    returned (nothing, for an absent key) the load fails with the codec's
    own exception, passed on unchanged; the sampler is left as it was. *)
Theorem load_store_failure_is_codec_exception (st : St) (e : exn) :
  self_resume (self st) = None →
  self_redis_server (self st) = true →
  deserialize
    (kv (world st) !! critic_weights_key (self_redis_prefix (self st)))
  = Raise e →
  load_critic_weights st =
    (Raise e,
     {| self := self st;
        world := emit (EvGet (critic_weights_key (self_redis_prefix (self st))))
                   (world st) |}).
Proof.
  intros Hr Hs Hd. rewrite (load_critic_weights_store st Hr Hs). simpl.
  by rewrite Hd.
Qed.


End LoadClaims.

(** ** Relating the start and the end of a computation *)

Section Keeps.
Context `{C : Collaborators}.
Context (R : St → St → Prop) `{!PreOrder R}.

Lemma at_ret {A} (a : A) s : keeps_at R (mret a) s.
Proof. unfold keeps_at. simpl. reflexivity. Qed.

Lemma at_raise {A} (e : exn) s : keeps_at R (@raise _ A e) s.
Proof. unfold keeps_at. simpl. reflexivity. Qed.

Lemma at_lift {A} (r : res A) s : keeps_at R (lift r) s.
Proof. unfold keeps_at. simpl. reflexivity. Qed.

Lemma at_put_self x s :
  R s {| self := x; world := world s |} → keeps_at R (put_self x) s.
Proof. done. Qed.

Lemma at_put_world w s :
  R s {| self := self s; world := w |} → keeps_at R (put_world w) s.
Proof. done. Qed.

(** Reading the object, reading the world and pure steps leave the state
    where it is: what follows them runs from the same state. *)
Lemma at_bind_get_self {B} (k : Sampler → M B) s :
  keeps_at R (k (self s)) s → keeps_at R (get_self ≫= k) s.
Proof. done. Qed.

Lemma at_bind_get_world {B} (k : World → M B) s :
  keeps_at R (k (world s)) s → keeps_at R (get_world ≫= k) s.
Proof. done. Qed.

Lemma at_bind_ret {A B} (a : A) (k : A → M B) s :
  keeps_at R (k a) s → keeps_at R (mret a ≫= k) s.
Proof. done. Qed.

Lemma at_bind_lift {A B} (r : res A) (k : A → M B) s :
  (∀ a, r = Ok a → keeps_at R (k a) s) → keeps_at R (lift r ≫= k) s.
Proof.
  intros H. unfold keeps_at, mbind, M_bind, bind, lift.
  destruct r as [a|e]; simpl; [by apply H|reflexivity].
Qed.

Lemma at_of_keeps {A} (m : M A) s : keeps R m → keeps_at R m s.
Proof. intros H. apply H. Qed.

(** A write, followed by what runs from the written state. *)
Lemma at_bind_put_self {B} x (k : unit → M B) s :
  R s {| self := x; world := world s |} →
  keeps_at R (k tt) {| self := x; world := world s |} →
  keeps_at R (put_self x ≫= k) s.
Proof. intros H1 H2. unfold keeps_at in *. simpl. etrans; [exact H1|exact H2]. Qed.

Lemma at_bind_put_world {B} w (k : unit → M B) s :
  R s {| self := self s; world := w |} →
  keeps_at R (k tt) {| self := self s; world := w |} →
  keeps_at R (put_world w ≫= k) s.
Proof. intros H1 H2. unfold keeps_at in *. simpl. etrans; [exact H1|exact H2]. Qed.

(** A call that keeps the relation, followed by anything that does. *)
Lemma at_bind {A B} (m : M A) (k : A → M B) s :
  keeps R m → (∀ a s', keeps_at R (k a) s') → keeps_at R (m ≫= k) s.
Proof.
  intros Hm Hk. unfold keeps_at, mbind, M_bind, bind.
  specialize (Hm s). unfold keeps_at in Hm.
  destruct (m s) as [[a|e] s1]; simpl in *; [|done].
  etrans; [exact Hm|apply Hk].
Qed.

Lemma keeps_mono (R' : St → St → Prop) {A} (m : M A) :
  (∀ s s', R' s s' → R s s') → keeps R' m → keeps R m.
Proof. intros Hsub Hm s. apply Hsub, Hm. Qed.

(** The loops keep what every turn keeps. *)
Lemma keeps_run_loop :
  (∀ l s, R s (run_turn l s).2) →
  ∀ fuel l s, R s (run_loop fuel l s).2.
Proof.
  intros Hturn fuel. induction fuel as [|fuel IH]; intros l s; simpl.
  - reflexivity.
  - specialize (Hturn l s). destruct (run_turn l s) as [[l'| |e] s1]; simpl in *;
      try done.
    etrans; [exact Hturn|apply IH].
Qed.

Lemma keeps_run_turn :
  (∀ l, keeps R (run_step l)) →
  (∀ l, keeps R (run_episode_end l)) →
  ∀ l s, R s (run_turn l s).2.
Proof.
  intros Hs He l s. unfold run_turn. destruct (done l).
  - specialize (He l s). unfold keeps_at in He.
    by destruct (run_episode_end l s) as [[[l'|]|e] s1].
  - specialize (Hs l s). unfold keeps_at in Hs.
    by destruct (run_step l s) as [[l'|e] s1].
Qed.

Lemma keeps_run :
  keeps R run_prologue →
  (∀ l s, R s (run_turn l s).2) →
  ∀ fuel s, R s (run fuel s).2.
Proof.
  intros Hp Ht fuel s. unfold run. specialize (Hp s). unfold keeps_at in Hp.
  destruct (run_prologue s) as [[l|e] s1]; simpl in *; [|done].
  etrans; [exact Hp|by apply keeps_run_loop].
Qed.

End Keeps.

Create HintDb keeps.

(** Walks through a method: reads and pure steps are followed in place,
    calls are discharged from the hint database, and the writes to the
    object or the world are left as goals. *)
Ltac keeps_walk :=
  unfold update_self;
  repeat first
    [ progress intros
    | match goal with
      | |- keeps _ _ => first [solve [eauto with keeps] | intros ?]
      | |- PreOrder _ => typeclasses eauto
      | |- keeps_at _ (get_self ≫= _) _ => apply at_bind_get_self
      | |- keeps_at _ (get_world ≫= _) _ => apply at_bind_get_world
      | |- keeps_at _ (mret _ ≫= _) _ => apply at_bind_ret
      | |- keeps_at _ (lift _ ≫= _) _ => apply at_bind_lift
      | |- keeps_at _ (put_self _ ≫= _) _ => apply at_bind_put_self; simpl
      | |- keeps_at _ (put_world _ ≫= _) _ => apply at_bind_put_world; simpl
      | |- keeps_at _ (mret _) _ => apply at_ret
      | |- keeps_at _ (raise _) _ => apply at_raise
      | |- keeps_at _ (lift _) _ => apply at_lift
      | |- keeps_at _ (put_self _) _ => apply at_put_self
      | |- keeps_at _ (put_world _) _ => apply at_put_world
      | |- keeps_at _ (match ?x with _ => _ end) _ => destruct x eqn:?
      | |- keeps_at _ (_ ≫= _) _ => apply at_bind
      | |- keeps_at _ _ _ => apply at_of_keeps; solve [eauto with keeps]
      end ].

Section Quiet.
Context `{C : Collaborators}.

#[local] Instance quiet_preorder : PreOrder quiet.
Proof.
  split.
  - by intros s.
  - intros a b c (?&?&?) (?&?&?). unfold quiet. split_and!; congruence.
Qed.

Ltac quiet_write :=
  unfold quiet, fixed, schedule, account; simpl;
  rewrite ?values_pushed_cons, ?episodes_printed_cons, ?app_nil_r; done.

Lemma quiet_set_global_seeds i : keeps quiet (set_global_seeds i).
Proof. unfold set_global_seeds. keeps_walk. quiet_write. Qed.

Lemma quiet_random_randrange n : keeps quiet (random_randrange n).
Proof. unfold random_randrange. keeps_walk. quiet_write. Qed.

Lemma quiet_np_random_rand : keeps quiet np_random_rand.
Proof. unfold np_random_rand. keeps_walk. quiet_write. Qed.

Lemma quiet_np_random_randint n : keeps quiet (np_random_randint n).
Proof. unfold np_random_randint. keeps_walk. quiet_write. Qed.

Lemma quiet_env_reset_call : keeps quiet env_reset_call.
Proof. unfold env_reset_call. keeps_walk. quiet_write. Qed.

Lemma quiet_redis_get k : keeps quiet (redis_get k).
Proof. unfold redis_get. keeps_walk. quiet_write. Qed.

Lemma quiet_load_checkpoint path : keeps quiet (load_checkpoint path).
Proof. unfold load_checkpoint. keeps_walk; quiet_write. Qed.

#[local] Hint Resolve quiet_set_global_seeds quiet_random_randrange
  quiet_np_random_rand quiet_np_random_randint quiet_env_reset_call
  quiet_redis_get quiet_load_checkpoint : keeps.

Lemma quiet_random_choice seq : keeps quiet (random_choice seq).
Proof. unfold random_choice. keeps_walk. Qed.

Lemma quiet_install_weights weights : keeps quiet (install_weights weights).
Proof. unfold install_weights. keeps_walk. quiet_write. Qed.

#[local] Hint Resolve quiet_random_choice quiet_install_weights : keeps.

Lemma quiet_load_critic_weights : keeps quiet load_critic_weights.
Proof. unfold load_critic_weights. keeps_walk; quiet_write. Qed.

Lemma quiet_critic_call state : keeps quiet (critic_call state).
Proof.
  intros s. unfold keeps_at, critic_call, forward. simpl.
  destruct (training _); [|done].
  destruct (forward_train _ _ _) as [[scores params] r]. quiet_write.
Qed.

#[local] Hint Resolve quiet_critic_call : keeps.

Lemma quiet_act state : keeps quiet (act state).
Proof. unfold act. keeps_walk; quiet_write. Qed.

Lemma quiet_begin_episode : keeps quiet begin_episode.
Proof. unfold begin_episode. keeps_walk; quiet_write. Qed.

End Quiet.

#[global] Hint Resolve quiet_set_global_seeds quiet_random_randrange
  quiet_np_random_rand quiet_np_random_randint quiet_env_reset_call
  quiet_redis_get quiet_load_checkpoint quiet_random_choice
  quiet_install_weights quiet_load_critic_weights quiet_critic_call
  quiet_act quiet_begin_episode : keeps.

(** ** What one turn of the loops does *)

Section Turns.
Context `{C : Collaborators}.

#[local] Existing Instance quiet_preorder.

Lemma steps_taken_cons (ev : Event) (t : list Event) :
  steps_taken (ev :: t)
  = (match ev with EvStep _ => 1 | _ => 0 end + steps_taken t)%nat.
Proof. by destruct ev. Qed.

(** [store_episode] in full. *)
Lemma store_episode_eq (st : St) :
  store_episode st =
    if self_redis_server (self st) then
      match get_complete_episode (self_buffer (self st)) with
      | Raise e => (Raise e, st)
      | Ok episode =>
          (Ok tt,
           {| self := self st;
              world :=
                emit (EvRpush "trajectories" (serialize episode))
                  (with_queues
                     (<["trajectories"%string :=
                          default [] (queues (world st) !! "trajectories"%string)
                          ++ [serialize episode]]> (queues (world st)))
                     (world st)) |})
      end
    else (Ok tt, st).
Proof.
  unfold store_episode, redis_rpush. unfold_monad. simpl.
  destruct (self_redis_server (self st)); simpl; [|done].
  destruct (get_complete_episode _); simpl; done.
Qed.

(** Lines 190-228 in full. *)
Lemma run_episode_close_eq (l : Locals) (st : St) :
  run_episode_close l st =
    let line :=
      EvPrint (self_episode_index (self st)) (step_index l) (episode_reward l)
        (episode_reward_orig l) (seed l) in
    let next := set_episode_index (self_episode_index (self st) + 1) (self st) in
    if storing (self st) then
      match get_complete_episode (self_buffer (self st)) with
      | Raise e => (Raise e, st)
      | Ok episode =>
          (Ok tt,
           {| self := next;
              world :=
                emit line
                  (emit (EvRpush "trajectories" (serialize episode))
                     (with_queues
                        (<["trajectories"%string :=
                             default [] (queues (world st) !! "trajectories"%string)
                             ++ [serialize episode]]> (queues (world st)))
                        (world st))) |})
      end
    else (Ok tt, {| self := next; world := emit line (world st) |}).
Proof.
  unfold run_episode_close, storing. unfold mbind at 1. unfold M_bind, bind at 1.
  unfold get_self at 1. cbv beta iota.
  destruct (negb (self_infer (self st)) || self_force_store (self st)) eqn:Hgo.
  - rewrite andb_true_r. unfold mbind at 1. unfold M_bind, bind at 1.
    rewrite store_episode_eq.
    destruct (self_redis_server (self st)); simpl.
    + destruct (get_complete_episode _); simpl; done.
    + by destruct st.
  - rewrite andb_false_r. by destruct st.
Qed.

Lemma quiet_run_episode_next : keeps quiet run_episode_next.
Proof.
  unfold run_episode_next. keeps_walk.
  all: unfold quiet, fixed, schedule, account; simpl; done.
Qed.

(** The body of the inner loop leaves the accounting alone; it either
    stops before the environment step (the estimator or the random draw
    raised) or decays the rate once and takes one step. *)
Lemma run_step_effect (l : Locals) (st : St) :
  let st' := (run_step l st).2 in
  fixed st' = fixed st
  ∧ account st' = account st
  ∧ (schedule st' = schedule st
     ∨ (self_eps (self st') =
          eps_update (self_eps_delta (self st)) (self_eps_final (self st))
            (self_eps (self st))
        ∧ steps_taken (trace (world st'))
          = S (steps_taken (trace (world st))))).
Proof.
  cbv zeta. destruct (run_step l st) as [r st'] eqn:E. simpl.
  unfold run_step in E.
  pose proof (quiet_act
                (get_state (self_history_len (self st)) (self_buffer (self st)))
                st) as Hact.
  unfold keeps_at in Hact.
  remember (act (get_state (self_history_len (self st)) (self_buffer (self st))))
    as call eqn:Hcall.
  unfold env_step_call in E. unfold_monad. cbv beta iota in E. rewrite <- Hcall in E.
  destruct (call st) as [[action|e] s1]; simpl in Hact; simpl in E.
  2:{ injection E as <- <-. destruct Hact as (?&?&?). auto. }
  destruct Hact as (Hf & Hs & Ha).
  destruct (env_step _ _ _) as [[[[[o rw] d] i] e'] g']; simpl in E.
  assert (Heps : self_eps (self s1) = self_eps (self st)).
  { unfold schedule in Hs. congruence. }
  assert (Hn : steps_taken (trace (world s1)) = steps_taken (trace (world st))).
  { unfold schedule in Hs. congruence. }
  assert (Hd : self_eps_delta (self s1) = self_eps_delta (self st)).
  { unfold fixed in Hf. congruence. }
  assert (He : self_eps_final (self s1) = self_eps_final (self st)).
  { unfold fixed in Hf. congruence. }
  destruct (decide _); simpl in E; injection E as <- <-.
  all: split_and!;
    [ rewrite <- Hf; reflexivity
    | rewrite <- Ha; unfold account; simpl;
      by rewrite values_pushed_cons, episodes_printed_cons, !app_nil_r
    | right; simpl; rewrite Heps, Hd, He, Hn; done ].
Qed.

End Turns.

(** ** The exploration schedule over a run *)

Section Schedule.
Context `{C : Collaborators}.

#[local] Instance steady_preorder : PreOrder steady.
Proof.
  split.
  - by intros s.
  - intros a b c (?&?) (?&?). unfold steady. split; congruence.
Qed.

Lemma quiet_steady s s' : quiet s s' → steady s s'.
Proof. intros (?&?&?). by split. Qed.

Lemma steady_run_episode_close l : keeps steady (run_episode_close l).
Proof.
  intros st. unfold keeps_at. rewrite run_episode_close_eq. cbv zeta.
  destruct (storing (self st)); [destruct (get_complete_episode _)|]; simpl;
    unfold steady, fixed, schedule; simpl; done.
Qed.

Lemma steady_run_episode_end l : keeps steady (run_episode_end l).
Proof.
  unfold run_episode_end. intros st. apply at_bind; [apply _| |].
  - apply steady_run_episode_close.
  - intros _ s'. apply (keeps_mono steady quiet); [apply quiet_steady|].
    apply quiet_run_episode_next.
Qed.

#[local] Hint Extern 1 (keeps steady _) =>
  apply (keeps_mono steady quiet); [apply quiet_steady|] : keeps.

Lemma steady_run_prologue : keeps steady run_prologue.
Proof. unfold run_prologue. keeps_walk. done. Qed.

Lemma paced_preorder e0 n0 : PreOrder (paced e0 n0).
Proof.
  split.
  - intros s. unfold paced. by split_and!.
  - intros a b c (Hf1 & Hn1 & H1) (Hf2 & Hn2 & H2). unfold paced.
    split_and!; [congruence|lia|auto].
Qed.

Lemma steady_paced e0 n0 s s' : steady s s' → paced e0 n0 s s'.
Proof.
  intros [Hf Hs]. unfold schedule in Hs.
  assert (self_eps (self s') = self_eps (self s)) as He by congruence.
  assert (steps_taken (trace (world s')) = steps_taken (trace (world s)))
    as Hn by congruence.
  assert (self_eps_delta (self s') = self_eps_delta (self s)) as Hd.
  { unfold fixed in Hf. congruence. }
  assert (self_eps_final (self s') = self_eps_final (self s)) as Hl.
  { unfold fixed in Hf. congruence. }
  unfold paced, on_pace. rewrite He, Hn, Hd, Hl. by split_and!.
Qed.

(** What a turn does to the schedule: nothing, or one update for one
    environment step. *)
Lemma run_turn_effect (l : Locals) (st : St) :
  let st' := (run_turn l st).2 in
  fixed st' = fixed st
  ∧ (schedule st' = schedule st
     ∨ (self_eps (self st') =
          eps_update (self_eps_delta (self st)) (self_eps_final (self st))
            (self_eps (self st))
        ∧ steps_taken (trace (world st'))
          = S (steps_taken (trace (world st))))).
Proof.
  cbv zeta. unfold run_turn. destruct (done l).
  - pose proof (steady_run_episode_end l st) as [Hf Hs].
    destruct (run_episode_end l st) as [[[l'|]|e] s1]; simpl in *; auto.
  - pose proof (run_step_effect l st) as (Hf & _ & Hs). cbv zeta in Hs.
    destruct (run_step l st) as [[l'|e] s1]; simpl in *; auto.
Qed.

Lemma paced_run_turn e0 n0 l st : paced e0 n0 st (run_turn l st).2.
Proof.
  destruct (run_turn_effect l st) as (Hf & [Hs|[He Hn]]).
  { by apply steady_paced. }
  assert (self_eps_delta (self (run_turn l st).2) = self_eps_delta (self st))
    as Hd.
  { unfold fixed in Hf. congruence. }
  assert (self_eps_final (self (run_turn l st).2) = self_eps_final (self st))
    as Hl.
  { unfold fixed in Hf. congruence. }
  unfold paced, on_pace. rewrite Hn, Hd, Hl, He.
  split_and!; [done|lia|]. intros [H0 H1]. split; [lia|].
  replace (S (steps_taken (trace (world st))) - n0)%nat
    with (S (steps_taken (trace (world st)) - n0)) by lia.
  simpl. by rewrite <- H1.
Qed.

Lemma paced_run e0 n0 fuel st : paced e0 n0 st (run fuel st).2.
Proof.
  pose proof (paced_preorder e0 n0).
  apply keeps_run; [done| |apply paced_run_turn].
  apply (keeps_mono _ steady); [apply steady_paced|].
  apply steady_run_prologue.
Qed.

(** Cutting the loops later only adds turns. *)
Lemma run_loop_add (n k : nat) (l : Locals) (s : St) :
  run_loop (n + k) l s =
    match run_loop n l s with
    | (Running l', s') => run_loop k l' s'
    | stopped => stopped
    end.
Proof.
  revert l s. induction n as [|n IH]; intros l s; simpl; [done|].
  destruct (run_turn l s) as [[l'| |e] s1]; [apply IH|done|done].
Qed.

(** One turn more of a run does to the schedule what a turn does. *)
Lemma run_succ_effect (fuel : nat) (st : St) :
  let st' := (run fuel st).2 in
  let st'' := (run (S fuel) st).2 in
  fixed st'' = fixed st'
  ∧ (schedule st'' = schedule st'
     ∨ (self_eps (self st'') =
          eps_update (self_eps_delta (self st')) (self_eps_final (self st'))
            (self_eps (self st'))
        ∧ steps_taken (trace (world st''))
          = S (steps_taken (trace (world st'))))).
Proof.
  cbv zeta. unfold run.
  destruct (run_prologue st) as [[l|e] s1]; simpl; [|auto].
  replace (S fuel) with (fuel + 1)%nat by lia.
  change (match run_turn l s1 with
          | (Running l', s') => run_loop fuel l' s'
          | stopped => stopped
          end) with (run_loop (S fuel) l s1).
  replace (S fuel) with (fuel + 1)%nat by lia.
  rewrite run_loop_add.
  destruct (run_loop fuel l s1) as [[l'| |e] s2]; simpl; auto.
  pose proof (run_turn_effect l' s2) as H. cbv zeta in H.
  by destruct (run_turn l' s2) as [[l''| |e] s3].
Qed.

End Schedule.

Section ScheduleClaim.
Context `{C : Collaborators} `{!FloatOrder}.

Lemma num_lt_irrefl (x : Num) : num_lt x x = false.
Proof.
  destruct (num_lt x x) eqn:E; [|done]. by rewrite (num_lt_asym x x E) in E.
Qed.

(** The larger of two numbers is not below the second. *)
Lemma py_max_floor (a b : Num) : num_lt (py_max a b) b = false.
Proof.
  unfold py_max. destruct (num_lt a b) eqn:E; [apply num_lt_irrefl|done].
Qed.

(** An update by a step that is not negative does not raise a rate that is
    not below the floor. *)
Lemma eps_update_le (delta final e : Num) :
  num_lt delta num_zero = false →
  num_lt e final = false →
  num_lt e (eps_update delta final e) = false.
Proof.
  intros Hd He. unfold eps_update, py_max.
  destruct (num_lt (num_sub e delta) final); [done|by apply num_sub_le].
Qed.

(** An update of NaN is NaN. *)
Lemma eps_update_nan (delta final e : Num) :
  num_nan e = true → num_nan (eps_update delta final e) = true.
Proof.
  intros He. unfold eps_update, py_max.
  pose proof (num_sub_nan e delta He) as Hs.
  by destruct (num_lt_nan (num_sub e delta) final Hs) as [-> _].
Qed.

(** However often a rate is updated, it is not below the floor if it was
    not to begin with. *)
Lemma eps_iter_floor (delta final e0 : Num) (n : nat) :
  num_lt e0 final = false →
  num_lt (Nat.iter n (eps_update delta final) e0) final = false.
Proof. intros H0. destruct n; simpl; [done|apply py_max_floor]. Qed.

(** More updates do not give a larger rate. *)
Lemma eps_iter_le (delta final e0 : Num) (n k : nat) :
  num_lt delta num_zero = false →
  num_lt e0 final = false →
  num_lt (Nat.iter n (eps_update delta final) e0)
    (Nat.iter (n + k) (eps_update delta final) e0) = false.
Proof.
  intros Hd H0. induction k as [|k IH].
  - rewrite Nat.add_0_r. apply num_lt_irrefl.
  - replace (n + S k)%nat with (S (n + k)) by lia. simpl.
    set (b := Nat.iter (n + k) (eps_update delta final) e0) in *.
    destruct (num_nan b) eqn:Hb.
    + apply num_lt_nan. by apply eps_update_nan.
    + apply (num_lt_trans _ b); [done|done|].
      apply eps_update_le; [done|]. by apply eps_iter_floor.
Qed.

(** A longer run has taken no fewer steps. *)
Lemma run_steps_mono (fuel more : nat) (st : St) :
  (steps_taken (trace (world (run fuel st).2))
   ≤ steps_taken (trace (world (run (fuel + more) st).2)))%nat.
Proof.
  induction more as [|more IH].
  - by rewrite Nat.add_0_r.
  - replace (fuel + S more)%nat with (S (fuel + more)) by lia.
    destruct (run_succ_effect (fuel + more) st) as (_ & [Hs|[_ Hn]]).
    + unfold schedule in Hs. injection Hs as _ Hn. lia.
    + lia.
Qed.

(** The rate of a freshly built sampler at a cut of its run: the updates
    of [eps_init], one for each environment step of the run. *)
Lemma run_eps_iter (critic : Critic) (cfg : Config) (w : World) (st : St)
    (fuel : nat) :
  constructed critic cfg w = Some st →
  let final := exploration_eps_final cfg in
  let delta :=
    num_div_int (num_sub (exploration_eps_init cfg) final)
      (exploration_annealing_steps cfg) in
  let st' := (run fuel st).2 in
  (steps_taken (trace w) ≤ steps_taken (trace (world st')))%nat
  ∧ self_eps (self st')
    = Nat.iter (steps_taken (trace (world st')) - steps_taken (trace w))
        (eps_update delta final) (exploration_eps_init cfg).
Proof.
  intros Hc final delta st'.
  unfold constructed, Sampler_init in Hc.
  destruct (decide _) as [|_]; [done|]. injection Hc as <-.
  set (st0 := {| self := _; world := _ |}) in *.
  set (e0 := exploration_eps_init cfg) in *.
  assert (H0 : on_pace e0 (steps_taken (trace w)) st0).
  { unfold on_pace. simpl. split; [done|]. by rewrite Nat.sub_diag. }
  destruct (paced_run e0 (steps_taken (trace w)) fuel st0) as (Hf & Hn & Hs).
  destruct (Hs H0) as [H1 H2]. fold st' in Hf, Hn, H1, H2.
  assert (Hd : self_eps_delta (self st') = delta).
  { change delta with (self_eps_delta (self st0)). unfold fixed in Hf.
    congruence. }
  assert (Hl : self_eps_final (self st') = final).
  { change final with (self_eps_final (self st0)). unfold fixed in Hf.
    congruence. }
  rewrite Hd, Hl in H2. done.
Qed.

(** C4 (as amended).  For [eps_init > eps_final] and a positive number of
    annealing steps, with [delta = (eps_init - eps_final) / decay_steps]:
    wherever the run is cut, if the environment has been stepped N times
    since the run began (over all episodes together), then eps is what N
    updates [eps = max(eps - delta, eps_final)] make of [eps_init]; eps
    is not below [eps_final] and not above [eps_init], and it is never
    larger later in the run. *)
Theorem eps_decays_once_per_step (critic : Critic) (cfg : Config) (w : World)
    (st : St) (fuel : nat) :
  num_lt (exploration_eps_final cfg) (exploration_eps_init cfg) = true →
  0 < exploration_annealing_steps cfg →
  constructed critic cfg w = Some st →
  let final := exploration_eps_final cfg in
  let delta :=
    num_div_int (num_sub (exploration_eps_init cfg) final)
      (exploration_annealing_steps cfg) in
  let st' := (run fuel st).2 in
  ∃ N : nat,
    steps_taken (trace (world st')) = (N + steps_taken (trace w))%nat
    ∧ self_eps (self st')
      = Nat.iter N (eps_update delta final) (exploration_eps_init cfg)
    ∧ num_lt (self_eps (self st')) final = false
    ∧ num_lt (exploration_eps_init cfg) (self_eps (self st')) = false
    ∧ ∀ more,
        num_lt (self_eps (self st')) (self_eps (self (run (fuel + more) st).2))
        = false.
Proof.
  intros Hlt Hpos Hc final delta st'.
  assert (Hdelta : num_lt delta num_zero = false).
  { unfold delta. apply num_div_nonneg; [|done]. by apply num_sub_pos. }
  assert (H0 : num_lt (exploration_eps_init cfg) final = false).
  { by apply num_lt_asym. }
  destruct (run_eps_iter critic cfg w st fuel Hc) as [Hn He].
  fold final delta st' in Hn, He.
  exists (steps_taken (trace (world st')) - steps_taken (trace w))%nat.
  split_and!.
  - lia.
  - done.
  - rewrite He. by apply eps_iter_floor.
  - rewrite He. by apply (eps_iter_le delta final _ 0).
  - intros more.
    destruct (run_eps_iter critic cfg w st (fuel + more) Hc) as [Hn' He'].
    fold final delta in He'. rewrite He, He'.
    pose proof (run_steps_mono fuel more st) as Hm. fold st' in Hm.
    replace (steps_taken (trace (world (run (fuel + more) st).2))
             - steps_taken (trace w))%nat
      with ((steps_taken (trace (world st')) - steps_taken (trace w))
            + (steps_taken (trace (world (run (fuel + more) st).2))
               - steps_taken (trace (world st'))))%nat by lia.
    by apply eps_iter_le.
Qed.

End ScheduleClaim.

(** ** Episode accounting over a run *)

Section Tally.
Context `{C : Collaborators}.

Lemma storing_fixed s s' :
  fixed s' = fixed s → storing (self s') = storing (self s).
Proof. unfold fixed, storing. intros H. congruence. Qed.

#[local] Instance tallied_preorder : PreOrder tallied.
Proof.
  split.
  - intros s. split; [done|]. exists [], []. rewrite !app_nil_r.
    split_and!; try done. by destruct (storing _).
  - intros a b c (Hf1 & p1 & e1 & Hp1 & He1 & Hk1 & Hl1 & Hq1)
      (Hf2 & p2 & e2 & Hp2 & He2 & Hk2 & Hl2 & Hq2).
    split; [congruence|]. exists (p1 ++ p2), (e1 ++ e2).
    rewrite Hp2, Hp1, He2, He1, !app_assoc. split_and!; try done.
    + by apply Forall_app.
    + rewrite (storing_fixed a b Hf1) in Hl2. rewrite !length_app.
      destruct (storing (self a)); lia.
    + intros Hr. rewrite Hq2, Hq1; [done|done|].
      unfold fixed in Hf1. congruence.
Qed.

Lemma account_tallied s s' :
  fixed s' = fixed s → account s' = account s → tallied s s'.
Proof.
  intros Hf Ha. unfold account in Ha. split; [done|].
  exists [], []. rewrite !app_nil_r. split_and!; try congruence; [done|].
  by destruct (storing _).
Qed.

Lemma quiet_tallied s s' : quiet s s' → tallied s s'.
Proof. intros (Hf & _ & Ha). by apply account_tallied. Qed.

#[local] Hint Extern 1 (keeps tallied _) =>
  apply (keeps_mono tallied quiet); [apply quiet_tallied|] : keeps.

Lemma tallied_run_episode_close l : keeps tallied (run_episode_close l).
Proof.
  intros st. unfold keeps_at. rewrite run_episode_close_eq. cbv zeta.
  destruct (storing (self st)) eqn:Hst;
    [destruct (get_complete_episode _)|]; simpl.
  - split; [done|]. simpl.
    exists [("trajectories"%string, serialize a)],
      [(self_episode_index (self st), step_index l)].
    rewrite !values_pushed_cons, !episodes_printed_cons, !app_nil_r, Hst.
    split_and!; try done.
    + by repeat constructor.
    + intros Hr. unfold storing in Hst. by rewrite Hr in Hst.
  - reflexivity.
  - split; [done|]. simpl.
    exists [], [(self_episode_index (self st), step_index l)].
    rewrite !values_pushed_cons, !episodes_printed_cons, !app_nil_r, Hst.
    by split_and!.
Qed.

Lemma tallied_run_turn l st : tallied st (run_turn l st).2.
Proof.
  apply keeps_run_turn; try apply _; clear l st; intros l st.
  - unfold keeps_at. destruct (run_step_effect l st) as (Hf & Ha & _).
    by apply account_tallied.
  - unfold run_episode_end. apply at_bind; try apply _.
    + apply tallied_run_episode_close.
    + intros _ s'. apply (keeps_mono tallied quiet); [apply quiet_tallied|].
      apply quiet_run_episode_next.
Qed.

Lemma tallied_run_prologue : keeps tallied run_prologue.
Proof.
  unfold run_prologue. keeps_walk. split; [done|]. simpl.
  exists [], []. rewrite !app_nil_r. split_and!; try done.
  by destruct (storing _).
Qed.

Lemma tallied_run fuel st : tallied st (run fuel st).2.
Proof.
  apply keeps_run; try apply _;
    [apply tallied_run_prologue|apply tallied_run_turn].
Qed.

(** C2 (as amended).  With a store handle configured, wherever the run is
    cut: the values pushed since construction all went to the list
    [trajectories]; when the mode is not [infer] or [force_store] is set
    there is one of them for each completed episode, whatever the mode (in
    particular for mode [infer] with [force_store]); in mode [infer]
    without [force_store] there is none. *)
Theorem pushes_follow_mode (critic : Critic) (cfg : Config) (w : World)
    (st : St) (fuel : nat) :
  redis_server cfg = true →
  constructed critic cfg w = Some st →
  let st' := (run fuel st).2 in
  ∃ pushed printed,
    values_pushed (trace (world st')) = values_pushed (trace w) ++ pushed
    ∧ episodes_printed (trace (world st')) = episodes_printed (trace w) ++ printed
    ∧ Forall (fun p => p.1 = "trajectories"%string) pushed
    ∧ (mode cfg ≠ "infer"%string ∨ force_store cfg = true →
       length pushed = length printed)
    ∧ (mode cfg = "infer"%string → force_store cfg = false → pushed = []).
Proof.
  intros Hr Hc st'. unfold constructed, Sampler_init in Hc.
  destruct (decide _) as [|_]; [done|]. injection Hc as <-.
  set (st0 := {| self := _; world := _ |}) in *.
  destruct (tallied_run fuel st0) as (_ & pushed & printed & Hp & He & Hk & Hl & _).
  fold st' in Hp, He. exists pushed, printed.
  unfold st0 in Hp, He, Hl. simpl in Hp, He, Hl.
  rewrite values_pushed_cons, app_nil_r in Hp.
  rewrite episodes_printed_cons, app_nil_r in He.
  unfold storing in Hl. simpl in Hl. rewrite Hr in Hl. simpl in Hl.
  split_and!; try done.
  - intros [Hm|Hf].
    + by rewrite bool_decide_eq_false_2 in Hl.
    + rewrite Hf, orb_true_r in Hl. done.
  - intros Hm Hf. rewrite Hf, bool_decide_eq_true_2 in Hl by done.
    simpl in Hl. by destruct pushed.
Qed.

(** C9.  Without a store handle [store_episode] returns at once, changing
    nothing and raising nothing, and over a whole run, wherever it is cut
    and whatever the mode and [force_store], nothing is pushed and the
    lists of the store stay as they were: the completed episodes are
    dropped. *)
Theorem no_store_handle_drops_episodes (st : St) :
  self_redis_server (self st) = false →
  store_episode st = (Ok tt, st)
  ∧ ∀ fuel,
      values_pushed (trace (world (run fuel st).2))
      = values_pushed (trace (world st))
      ∧ queues (world (run fuel st).2) = queues (world st).
Proof.
  intros Hr. split.
  - by rewrite store_episode_eq, Hr.
  - intros fuel.
    destruct (tallied_run fuel st) as (_ & pushed & printed & Hp & _ & _ & Hl & Hq).
    unfold storing in Hl. rewrite Hr in Hl. simpl in Hl.
    destruct pushed; [|done]. rewrite app_nil_r in Hp. auto.
Qed.

End Tally.

(** ** The seeding protocol over a run *)

Section Seeding.
Context `{C : Collaborators}.

Lemma resets_seeded_app base pool (a b : list Event) :
  resets_seeded base pool a → resets_seeded base pool b →
  resets_seeded base pool (a ++ b).
Proof.
  intros Ha Hb. induction a as [|ev a IH]; [done|].
  destruct ev; simpl in *; auto.
  destruct Ha as [Hhead Ha]. split; [|auto].
  destruct a as [|[] [|[] a']]; simpl in *; done.
Qed.

#[local] Instance seeded_preorder : PreOrder seeded.
Proof.
  split.
  - intros s. split_and!; try done. by exists [].
  - intros a b c (Hs1 & Hp1 & n1 & Ht1 & Hr1) (Hs2 & Hp2 & n2 & Ht2 & Hr2).
    split_and!; try congruence. exists (n2 ++ n1).
    rewrite Ht2, Ht1, app_assoc. split; [done|].
    rewrite Hs1, Hp1 in Hr2. by apply resets_seeded_app.
Qed.

(** A write that leaves the seeding attributes alone and adds at most one
    event, not a reset. *)
Ltac seeded_write :=
  unfold seeded; simpl; split_and!; try done;
  first [ by exists [] | by eexists [_] ].

Lemma seeded_set_global_seeds i : keeps seeded (set_global_seeds i).
Proof. unfold set_global_seeds. keeps_walk. seeded_write. Qed.

Lemma seeded_random_randrange n : keeps seeded (random_randrange n).
Proof. unfold random_randrange. keeps_walk. seeded_write. Qed.

Lemma seeded_np_random_rand : keeps seeded np_random_rand.
Proof. unfold np_random_rand. keeps_walk. seeded_write. Qed.

Lemma seeded_np_random_randint n : keeps seeded (np_random_randint n).
Proof. unfold np_random_randint. keeps_walk. seeded_write. Qed.

Lemma seeded_env_step_call a : keeps seeded (env_step_call a).
Proof. unfold env_step_call. keeps_walk. seeded_write. Qed.

Lemma seeded_redis_get k : keeps seeded (redis_get k).
Proof. unfold redis_get. keeps_walk. seeded_write. Qed.

Lemma seeded_redis_rpush k v : keeps seeded (redis_rpush k v).
Proof. unfold redis_rpush. keeps_walk. seeded_write. Qed.

Lemma seeded_print_episode i n r o sd : keeps seeded (print_episode i n r o sd).
Proof. unfold print_episode. keeps_walk. seeded_write. Qed.

Lemma seeded_load_checkpoint path : keeps seeded (load_checkpoint path).
Proof. unfold load_checkpoint. keeps_walk; seeded_write. Qed.

#[local] Hint Resolve seeded_set_global_seeds seeded_random_randrange
  seeded_np_random_rand seeded_np_random_randint seeded_env_step_call
  seeded_redis_get seeded_redis_rpush seeded_print_episode
  seeded_load_checkpoint : keeps.

Lemma seeded_install_weights weights : keeps seeded (install_weights weights).
Proof. unfold install_weights. keeps_walk. seeded_write. Qed.

#[local] Hint Resolve seeded_install_weights : keeps.

Lemma seeded_load_critic_weights : keeps seeded load_critic_weights.
Proof. unfold load_critic_weights. keeps_walk; seeded_write. Qed.

Lemma seeded_store_episode : keeps seeded store_episode.
Proof. unfold store_episode. keeps_walk; seeded_write. Qed.

Lemma seeded_critic_call state : keeps seeded (critic_call state).
Proof.
  intros s. unfold keeps_at, critic_call, forward. simpl.
  destruct (training _); [|reflexivity].
  destruct (forward_train _ _ _) as [[scores params] r]. seeded_write.
Qed.

#[local] Hint Resolve seeded_critic_call : keeps.

Lemma seeded_act state : keeps seeded (act state).
Proof. unfold act. keeps_walk; seeded_write. Qed.

#[local] Hint Resolve seeded_load_critic_weights seeded_store_episode
  seeded_act : keeps.

Lemma seeded_run_step l : keeps seeded (run_step l).
Proof. unfold run_step, push_transition. keeps_walk; seeded_write. Qed.

Lemma seeded_run_episode_close l : keeps seeded (run_episode_close l).
Proof. unfold run_episode_close. keeps_walk; seeded_write. Qed.

Lemma SEED_RANGE_pos : 0 < SEED_RANGE.
Proof. done. Qed.

(** The start of an episode: the only place that resets the environment,
    and it does so right after the two seedings. *)
Lemma seeded_begin_episode : keeps seeded begin_episode.
Proof.
  intros st. unfold keeps_at, begin_episode, random_randrange,
    set_global_seeds, random_choice, env_reset_call, random_randrange.
  unfold_monad. simpl.
  pose proof (randbelow_range SEED_RANGE (random (world st)) SEED_RANGE_pos)
    as Hd.
  destruct (randbelow SEED_RANGE (random (world st))) as [d r]. simpl in *.
  destruct (self_seeds (self st)) as [pool|] eqn:Hpool; simpl.
  - destruct pool as [|z pool]; simpl.
    { unfold seeded. simpl. split_and!; try done. by eexists [_]. }
    destruct (randbelow _ _) as [i r']. simpl.
    destruct (_ !! Z.to_nat i) as [x|] eqn:Hx; simpl.
    2:{ unfold seeded. simpl. split_and!; try done. by eexists [_]. }
    destruct (env_reset _ _) as [[o e] g]. simpl.
    unfold seeded. simpl. split_and!; try done.
    eexists [_; _; _]. split; [done|]. simpl. rewrite Hpool. simpl.
    split_and!; try done; try lia.
    by eapply list_elem_of_lookup_2.
  - pose proof (randbelow_range SEED_RANGE
                  (seed_all (self_seed (self st) + d)) SEED_RANGE_pos) as Hs.
    destruct (randbelow _ _) as [sd r']. simpl in *.
    destruct (env_reset _ _) as [[o e] g]. simpl.
    unfold seeded. simpl. split_and!; try done.
    eexists [_; _; _]. split; [done|]. simpl. rewrite Hpool. simpl.
    split_and!; try done; lia.
Qed.

#[local] Hint Resolve seeded_begin_episode seeded_run_step
  seeded_run_episode_close : keeps.

Lemma seeded_run_episode_end l : keeps seeded (run_episode_end l).
Proof.
  unfold run_episode_end, run_episode_next. keeps_walk; seeded_write.
Qed.


Lemma seeded_run_turn l st : seeded st (run_turn l st).2.
Proof.
  apply keeps_run_turn; try apply _;
    [apply seeded_run_step|apply seeded_run_episode_end].
Qed.



End Seeding.

(** ** Reproducible seeds *)

Section Determinism.
Context `{C : Collaborators}.

Lemma reset_seeds_from_app (a b : list Event) (last : option Z) :
  ∃ last',
    reset_seeds_from last (a ++ b)
    = reset_seeds_from last a ++ reset_seeds_from last' b.
Proof.
  revert last. induction a as [|ev a IH]; intros last; simpl.
  - by exists last.
  - destruct ev; try apply IH.
    destruct (IH last) as [last' ->]. by exists last'.
Qed.

Lemma reset_seeds_extend (new t : list Event) :
  reset_seeds t `prefix_of` reset_seeds (new ++ t).
Proof.
  unfold reset_seeds. rewrite rev_app_distr.
  destruct (reset_seeds_from_app (rev t) (rev new) None) as [last' ->].
  by eexists.
Qed.

(** With more fuel the trace of a run only grows. *)
Lemma run_trace_grows (fuel more : nat) (st : St) :
  ∃ new,
    trace (world (run (fuel + more) st).2)
    = new ++ trace (world (run fuel st).2).
Proof.
  unfold run. destruct (run_prologue st) as [[l|e] s1]; simpl; [|by exists []].
  rewrite run_loop_add.
  destruct (run_loop fuel l s1) as [[l'| |e] s2]; simpl; try by exists [].
  pose proof seeded_preorder.
  destruct (keeps_run_loop seeded seeded_run_turn more l' s2)
    as (_ & _ & new & Hnew & _).
  by exists new.
Qed.

(** C5.  Two runs of samplers built from the same configuration over the
    same environment and weight source, started with the process-wide
    random sources in any two states: cut at the same point they have done
    exactly the same, and if one is let run longer, the seeds its
    environment was reset under begin with those of the other.  The
    constructor's own seeding with [42 + id] makes the earlier state of the
    random sources irrelevant. *)
Theorem reset_seeds_reproducible (critic : Critic) (cfg : Config)
    (w : World) (g1 g2 : Rand) (fuel : nat) :
  construct_and_run fuel critic cfg (with_random g1 w)
  = construct_and_run fuel critic cfg (with_random g2 w)
  ∧ ∀ more,
      reset_seeds (trace (construct_and_run fuel critic cfg (with_random g1 w)).2)
      `prefix_of`
      reset_seeds
        (trace (construct_and_run (fuel + more) critic cfg (with_random g2 w)).2).
Proof.
  assert (Hinit : Sampler_init critic cfg (with_random g1 w)
                  = Sampler_init critic cfg (with_random g2 w)).
  { unfold Sampler_init, emit, with_random. simpl. done. }
  assert (Hsame : ∀ n, construct_and_run n critic cfg (with_random g1 w)
                       = construct_and_run n critic cfg (with_random g2 w)).
  { intros n. unfold construct_and_run. by rewrite Hinit. }
  split; [apply Hsame|]. intros more. rewrite Hsame.
  unfold construct_and_run.
  destruct (Sampler_init critic cfg (with_random g2 w)) as [[s|e] w'];
    simpl; [|done].
  destruct (run_trace_grows fuel more {| self := s; world := w' |})
    as [new Hnew].
  destruct (run (fuel + more) _) as [c2 s2].
  destruct (run fuel _) as [c1 s1]. simpl in *.
  rewrite Hnew. apply reset_seeds_extend.
Qed.

End Determinism.

(** ** How many episodes a run makes *)

Section EpisodeCount.
Context `{C : Collaborators}.

#[local] Existing Instance quiet_preorder.

(** Line 230 decides alone whether [run] returns. *)
Lemma run_episode_next_result (st : St) :
  match run_episode_next st with
  | (Ok None, st') =>
      self_episode_limit (self st) ≤ self_episode_index (self st) ∧ st' = st
  | (Ok (Some _), _) =>
      self_episode_index (self st) < self_episode_limit (self st)
  | (Raise _, _) => True
  end.
Proof.
  unfold run_episode_next. unfold_monad. simpl.
  destruct (decide _) as [Hle|Hgt]; [done|].
  destruct (py_mod _ _) as [r|e]; simpl; [|done].
  destruct ((if decide (r = 0) then load_critic_weights else _) st)
    as [[[]|e] s1]; simpl; [|done].
  destruct (begin_episode s1) as [[l'|e] s2]; simpl; [lia|done].
Qed.

Lemma counted_run_turn (n0 : nat) (l : Locals) (st : St) :
  counted n0 st →
  match run_turn l st with
  | (Running _, st') => counted n0 st'
  | (Returned, st') =>
      self_episode_index (self st') = Z.max 2 (self_episode_limit (self st))
      ∧ Z.of_nat (length (episodes_printed (trace (world st'))))
        = Z.of_nat n0 + (self_episode_index (self st') - 1)
  | (Raised _, _) => True
  end.
Proof.
  intros (Hn & H1 & Hi). unfold run_turn. destruct (done l).
  - unfold run_episode_end. unfold mbind, M_bind, bind.
    rewrite run_episode_close_eq. cbv zeta.
    set (next := set_episode_index _ _).
    assert (∀ w',
      length (episodes_printed (trace w'))
      = S (length (episodes_printed (trace (world st)))) →
      match
        (let (r, s') := run_episode_next {| self := next; world := w' |} in
         match r with
         | Ok (Some l') => (Running l', s')
         | Ok None => (Returned, s')
         | Raise e => (Raised e, s')
         end)
      with
      | (Running _, st') => counted n0 st'
      | (Returned, st') =>
          self_episode_index (self st') = Z.max 2 (self_episode_limit (self st))
          ∧ Z.of_nat (length (episodes_printed (trace (world st'))))
            = Z.of_nat n0 + (self_episode_index (self st') - 1)
      | (Raised _, _) => True
      end) as Hnext.
    { intros w' Hw'.
      pose proof (run_episode_next_result {| self := next; world := w' |}) as Hr.
      pose proof (quiet_run_episode_next {| self := next; world := w' |}) as Hq.
      unfold keeps_at in Hq.
      destruct (run_episode_next _) as [[[l'|]|e] s']; simpl in *; [| |done].
      - destruct Hq as (Hf & _ & Ha). unfold account in Ha. simpl in Ha.
        assert (self_episode_index (self s') = self_episode_index (self st) + 1)
          as Hidx by congruence.
        assert (episodes_printed (trace (world s')) = episodes_printed (trace w'))
          as Hpr by congruence.
        assert (self_episode_limit (self s') = self_episode_limit (self st))
          as Hlim.
        { unfold fixed in Hf. simpl in Hf. congruence. }
        unfold counted. rewrite Hidx, Hpr, Hlim, Hw'. split_and!; lia.
      - destruct Hr as [Hle ->]. simpl. rewrite Hw'. split; lia. }
    destruct (storing (self st)); [destruct (get_complete_episode _)|].
    + apply Hnext. simpl.
      rewrite !episodes_printed_cons, !length_app. simpl. lia.
    + done.
    + apply Hnext. simpl.
      rewrite !episodes_printed_cons, !length_app. simpl. lia.
  - destruct (run_step_effect l st) as (Hf & Ha & _).
    destruct (run_step l st) as [[l'|e] s']; simpl in *; [|done].
    unfold account in Ha.
    assert (self_episode_limit (self s') = self_episode_limit (self st))
      as Hlim.
    { unfold fixed in Hf. congruence. }
    unfold counted.
    replace (self_episode_index (self s')) with (self_episode_index (self st))
      by congruence.
    replace (episodes_printed (trace (world s')))
      with (episodes_printed (trace (world st))) by congruence.
    by rewrite Hlim.
Qed.

Lemma counted_run_loop (n0 : nat) (fuel : nat) (l : Locals) (st st' : St) :
  counted n0 st →
  run_loop fuel l st = (Returned, st') →
  self_episode_index (self st') = Z.max 2 (self_episode_limit (self st))
  ∧ Z.of_nat (length (episodes_printed (trace (world st'))))
    = Z.of_nat n0 + (self_episode_index (self st') - 1).
Proof.
  revert l st. induction fuel as [|fuel IH]; intros l st Hc Hrun; simpl in Hrun;
    [done|].
  pose proof (counted_run_turn n0 l st Hc) as Hturn.
  pose proof (tallied_run_turn l st) as (Hf & _).
  destruct (run_turn l st) as [[l1| |e] s1]; simpl in *; [|by injection Hrun as <-|done].
  destruct (IH l1 s1 Hturn Hrun) as [H1 H2]. split; [|done].
  rewrite H1. unfold fixed in Hf. f_equal. congruence.
Qed.

(** Whenever [run] returns it has completed [max(1, episode_limit - 1)]
    episodes, and the episode index stands at [max(2, episode_limit)]. *)
Lemma run_returns_one_short (fuel : nat) (st st' : St) :
  run fuel st = (Returned, st') →
  self_episode_index (self st') = Z.max 2 (self_episode_limit (self st))
  ∧ ∃ printed,
      episodes_printed (trace (world st'))
      = episodes_printed (trace (world st)) ++ printed
      ∧ Z.of_nat (length printed)
        = Z.max 1 (self_episode_limit (self st) - 1).
Proof.
  intros Hrun.
  destruct (tallied_run fuel st) as (_ & _ & printed & _ & Hpr & _).
  rewrite Hrun in Hpr. simpl in Hpr.
  unfold run in Hrun.
  pose proof (tallied_run_prologue st) as (Hf & _ & pr0 & _ & Hpr0 & _).
  assert (self_episode_index (self (run_prologue st).2) = 1
          ∧ episodes_printed (trace (world (run_prologue st).2))
            = episodes_printed (trace (world st))) as [Hidx Hsame].
  { set (s1 := {| self := set_episode_index 1 (self st); world := world st |}).
    assert (run_prologue st = (load_critic_weights ≫= λ _, begin_episode) s1)
      as -> by done.
    assert (quiet s1 ((load_critic_weights ≫= λ _, begin_episode) s1).2)
      as (_ & _ & Ha).
    { apply (at_bind quiet); [apply quiet_load_critic_weights|].
      intros _ s'. apply quiet_begin_episode. }
    unfold account in Ha. simpl in Ha. split; congruence. }
  destruct (run_prologue st) as [[l|e] s1]; simpl in *; [|done].
  destruct (counted_run_loop (length (episodes_printed (trace (world st))))
              fuel l s1 st') as [H1 H2]; [|done|].
  { unfold counted. rewrite Hidx, Hsame. split_and!; [lia|lia|by left]. }
  assert (self_episode_limit (self s1) = self_episode_limit (self st)) as Hlim.
  { unfold fixed in Hf. congruence. }
  rewrite Hlim in H1. split; [done|]. exists printed. split; [done|].
  rewrite Hpr, length_app in H2. lia.
Qed.

End EpisodeCount.

(** * The sampler on the stub world *)

Section StubArithmetic.
#[local] Existing Instance Stub.collaborators.

Lemma stub_lt_true (x y : Q) : num_lt x y = true ↔ (x < y)%Q.
Proof. simpl. destruct (Qlt_le_dec x y); split; (done || lra). Qed.

Lemma stub_lt_false (x y : Q) : num_lt x y = false ↔ (y <= x)%Q.
Proof. simpl. destruct (Qlt_le_dec x y); split; (done || lra). Qed.

Lemma stub_lt_asym (x y : Q) : num_lt x y = true → num_lt y x = false.
Proof. rewrite stub_lt_true, stub_lt_false. lra. Qed.

Lemma stub_lt_trans (a b c : Q) :
  num_lt a b = false → num_lt b c = false → num_lt a c = false.
Proof. rewrite !stub_lt_false. lra. Qed.

Lemma stub_sub_le (x d : Q) :
  num_lt d 0%Q = false → num_lt x (num_sub x d) = false.
Proof. rewrite !stub_lt_false. simpl. lra. Qed.

Lemma stub_sub_pos (x y : Q) :
  num_lt y x = true → num_lt (num_sub x y) 0%Q = false.
Proof. rewrite stub_lt_true, stub_lt_false. simpl. lra. Qed.

Lemma stub_div_nonneg (x : Q) (n : Z) :
  num_lt x 0%Q = false → 0 < n → num_lt (num_div_int x n) 0%Q = false.
Proof.
  rewrite !stub_lt_false. simpl. intros Hx Hn. apply Qle_shift_div_l; [|lra].
  change 0%Q with (inject_Z 0). by rewrite <- Zlt_Qlt.
Qed.

End StubArithmetic.

(** Exact rationals, none of them NaN, have the order that the schedule
    needs. *)
#[local] Instance stub_float_order : @FloatOrder Stub.collaborators :=
  {| num_zero := 0%Q : @Num Stub.collaborators;
     num_nan := fun _ => false;
     num_lt_asym := stub_lt_asym;
     num_lt_nan := fun x y (H : false = true) =>
       match Bool.diff_false_true H with end;
     num_lt_trans := fun a b c _ => stub_lt_trans a b c;
     num_sub_nan := fun x d (H : false = true) =>
       match Bool.diff_false_true H with end;
     num_sub_le := stub_sub_le;
     num_sub_pos := stub_sub_pos;
     num_div_nonneg := stub_div_nonneg |}.

Section OnTheStub.
Import Stub.
#[local] Existing Instance Stub.collaborators.

(** C1.  On the stub world, configured with [episode_limit = 3]
    (five-step episodes, constant scores, train mode, a store handle), the
    run returns after two episodes, not three: two lines printed, for
    episodes 1 and 2 of five steps each, two episodes in the queue, and
    the episode index at 3. *)
Theorem episode_limit_3_makes_two_episodes :
  let '(c, s, w) := construct_and_run 20 critic0 config3 (world0 0) in
  c = Returned
  ∧ episodes_printed (trace w) = [(1, 5); (2, 5)]
  ∧ queues w !! "trajectories"%string = Some ["00001"; "00001"]%string
  ∧ self_episode_index <$> s = Some 3.
Proof. vm_compute. done. Qed.

(** C2, the claim as stated fails.  In train mode without a store handle
    two episodes complete and none is pushed; and in a mode that is neither
    [train] nor [infer], without [force_store], each of the two completed
    episodes is pushed. *)
Lemma pushes_need_a_store_handle :
  let w := (construct_and_run 20 critic0 config_no_store (world0 0)).2 in
  let w' := (construct_and_run 20 critic0 config_valid_mode (world0 0)).2 in
  (mode config_no_store = "train"%string
   ∧ episodes_printed (trace w) = [(1, 5); (2, 5)]
   ∧ values_pushed (trace w) = []
   ∧ queues w = ∅)
  ∧ (mode config_valid_mode ≠ "train"%string
     ∧ force_store config_valid_mode = false
     ∧ episodes_printed (trace w') = [(1, 5); (2, 5)]
     ∧ values_pushed (trace w')
       = [("trajectories", "00001"); ("trajectories", "00001")]%string).
Proof. vm_compute. split_and!; done. Qed.

(** C2, witness. *)
Lemma pushes_follow_mode_witness :
  redis_server config3 = true
  ∧ ∃ pushed printed,
      values_pushed (trace (world (run 20 (fresh config3 (world0 0))).2))
      = values_pushed (trace (world0 0)) ++ pushed
      ∧ episodes_printed (trace (world (run 20 (fresh config3 (world0 0))).2))
        = episodes_printed (trace (world0 0)) ++ printed
      ∧ Forall (fun p => p.1 = "trajectories"%string) pushed
      ∧ (mode config3 ≠ "infer"%string ∨ force_store config3 = true →
         length pushed = length printed)
      ∧ (mode config3 = "infer"%string → force_store config3 = false →
         pushed = []).
Proof.
  split; [reflexivity|].
  apply (pushes_follow_mode critic0 config3 (world0 0)
           (fresh config3 (world0 0)) 20); reflexivity.
Defined.



(** C4, witness. *)
Lemma eps_decays_once_per_step_witness :
  num_lt (exploration_eps_final config3) (exploration_eps_init config3) = true
  ∧ 0 < exploration_annealing_steps config3
  ∧ ∃ N : nat,
      steps_taken (trace (world (run 7 (fresh config3 (world0 0))).2))
      = (N + steps_taken (trace (world0 0)))%nat
      ∧ self_eps (self (run 7 (fresh config3 (world0 0))).2)
        = Nat.iter N
            (eps_update
               (num_div_int
                  (num_sub (exploration_eps_init config3)
                     (exploration_eps_final config3))
                  (exploration_annealing_steps config3))
               (exploration_eps_final config3))
            (exploration_eps_init config3)
      ∧ num_lt (self_eps (self (run 7 (fresh config3 (world0 0))).2))
          (exploration_eps_final config3) = false
      ∧ num_lt (exploration_eps_init config3)
          (self_eps (self (run 7 (fresh config3 (world0 0))).2)) = false
      ∧ ∀ more,
          num_lt (self_eps (self (run 7 (fresh config3 (world0 0))).2))
            (self_eps (self (run (7 + more) (fresh config3 (world0 0))).2))
          = false.
Proof.
  split; [reflexivity|]. split; [reflexivity|].
  apply (eps_decays_once_per_step critic0 config3 (world0 0)
           (fresh config3 (world0 0)) 7); reflexivity.
Defined.


(** C7, the claim as stated fails.  With weights under
    [_critic_weights] the key [_weights] is absent and yet the load
    succeeds; and with an empty store the load fails with the codec's
    TypeError, which is not WeightsUnavailableError. *)
Lemma store_load_reads_critic_weights_key :
  let st := fresh config_store (world_with_key "_critic_weights" "abc") in
  let st' := fresh config_store (world0 0) in
  (kv (world st) !! "_weights"%string = None
   ∧ (load_critic_weights st).1 = Ok tt)
  ∧ (kv (world st') !! "_critic_weights"%string = None
     ∧ (load_critic_weights st').1 = Raise TypeError
     ∧ (load_critic_weights st').1 ≠ Raise WeightsUnavailableError).
Proof.
  cbv zeta. split_and!; try reflexivity.
  assert ((load_critic_weights (fresh config_store (world0 0))).1
          = Raise TypeError) as -> by reflexivity.
  discriminate.
Qed.

(** C7, witness. *)
Lemma load_store_failure_is_codec_exception_witness :
  let st := fresh config_store (world0 0) in
  self_resume (self st) = None
  ∧ self_redis_server (self st) = true
  ∧ deserialize
      (kv (world st) !! critic_weights_key (self_redis_prefix (self st)))
    = Raise TypeError
  ∧ load_critic_weights st =
      (Raise TypeError,
       {| self := self st;
          world := emit (EvGet (critic_weights_key (self_redis_prefix (self st))))
                     (world st) |}).
Proof.
  cbv zeta. do 3 (split; [reflexivity|]).
  apply (load_store_failure_is_codec_exception
           (fresh config_store (world0 0)) TypeError); reflexivity.
Defined.

(** C8, witness. *)
Lemma load_installs_fetched_weights_witness :
  let st := fresh config3 (world0 0) in
  let st' := (load_critic_weights st).2 in
  load_critic_weights st = (Ok tt, st')
  ∧ ∃ weights,
      fetched_weights (self st) (world st) = Some weights
      ∧ state_dict (self_critic (self st')) = weights
      ∧ training (self_critic (self st')) = false
      ∧ self st' =
          set_critic {| state_dict := weights; training := false |} (self st).
Proof.
  cbv zeta. split; [reflexivity|].
  apply (load_installs_fetched_weights (fresh config3 (world0 0))
           (load_critic_weights (fresh config3 (world0 0))).2).
  reflexivity.
Defined.

(** C9, witness. *)
Lemma no_store_handle_drops_episodes_witness :
  let st := fresh config_no_store (world0 0) in
  self_redis_server (self st) = false
  ∧ store_episode st = (Ok tt, st)
  ∧ ∀ fuel,
      values_pushed (trace (world (run fuel st).2))
      = values_pushed (trace (world st))
      ∧ queues (world (run fuel st).2) = queues (world st).
Proof.
  cbv zeta. split; [reflexivity|].
  apply (no_store_handle_drops_episodes (fresh config_no_store (world0 0))).
  reflexivity.
Defined.

(** C10, witness. *)
Lemma load_prefers_checkpoint_witness :
  let st := fresh config3 (world0 0) in
  self_resume (self st) = Some checkpoint_path
  ∧ self_redis_server (self st) = true
  ∧ trace (world (load_critic_weights st).2)
    = EvLoadCheckpoint checkpoint_path :: trace (world st)
  ∧ keys_read (trace (world (load_critic_weights st).2))
    = keys_read (trace (world st))
  ∧ (load_critic_weights st).1 = Ok tt.
Proof.
  cbv zeta. split; [reflexivity|]. split; [reflexivity|].
  destruct (load_prefers_checkpoint (fresh config3 (world0 0)) checkpoint_path)
    as (Ht & Hk & _ & _ & _ & _); [reflexivity|reflexivity|].
  split_and!; [exact Ht|exact Hk|reflexivity].
Defined.

End OnTheStub.

(** * The module-level helpers *)

Section Helpers.
Context `{C : Collaborators}.

Lemma append_cons (a : ascii) (x b : string) :
  (String a x +:+ b)%string = String a (x +:+ b)%string.
Proof. reflexivity. Qed.

Lemma append_nil_l (b : string) : (EmptyString +:+ b)%string = b.
Proof. reflexivity. Qed.

Lemma prefix_app (x key : string) :
  String.prefix x key = true ↔ ∃ b, key = (x +:+ b)%string.
Proof.
  revert key. induction x as [|a x IH]; intros key.
  - split; [intros _; by exists key|by destruct key].
  - destruct key as [|a' key]; simpl.
    + split; [done|intros [b Hb]; discriminate].
    + destruct (Ascii.ascii_dec a a') as [->|Hne].
      * rewrite IH. split; intros [b Hb]; exists b;
          rewrite append_cons in *; congruence.
      * split; [done|]. intros [b Hb]. rewrite append_cons in Hb. congruence.
Qed.

Lemma contains_empty (x : string) :
  contains x EmptyString = String.prefix x EmptyString || false.
Proof. reflexivity. Qed.

Lemma contains_cons (x : string) (c : ascii) (key : string) :
  contains x (String c key) = String.prefix x (String c key) || contains x key.
Proof. reflexivity. Qed.

(** [contains x key] holds exactly when [x] occurs in [key]. *)
Lemma contains_occurs (x key : string) :
  contains x key = true ↔ ∃ a b, key = (a +:+ x +:+ b)%string.
Proof.
  induction key as [|c key IH]; [rewrite contains_empty|rewrite contains_cons].
  - rewrite orb_false_r, prefix_app. split.
    + intros [b Hb]. by exists EmptyString, b.
    + intros (a & b & Hab). destruct a.
      * rewrite append_nil_l in Hab. by exists b.
      * rewrite append_cons in Hab. done.
  - rewrite orb_true_iff, prefix_app, IH. split.
    + intros [[b Hb]|(a & b & Hab)].
      * by exists EmptyString, b.
      * exists (String c a), b. by rewrite append_cons, Hab.
    + intros (a & b & Hab). destruct a as [|c' a].
      * rewrite append_nil_l in Hab. left. by exists b.
      * rewrite append_cons in Hab. right. exists a, b. congruence.
Qed.

Lemma plain_key_occurs (key : string) :
  plain_key key = true
  ↔ ¬ (∃ a b, key = (a +:+ "norm" +:+ b)%string)
    ∧ ¬ (∃ a b, key = (a +:+ "lstm" +:+ b)%string).
Proof.
  unfold plain_key. simpl. rewrite andb_true_r, andb_true_iff.
  rewrite !negb_true_iff, <- !not_true_iff_false, !contains_occurs. done.
Qed.

Lemma get_critic_weights_lookup (c : Critic) (exclude_norm : bool) (k : string) :
  get_critic_weights c exclude_norm !! k =
    if exclude_norm && negb (plain_key k) then None else state_dict c !! k.
Proof.
  unfold get_critic_weights. rewrite lookup_fmap.
  destruct exclude_norm; simpl.
  - apply option_eq. intros v. rewrite fmap_Some.
    setoid_rewrite map_lookup_filter_Some. simpl.
    destruct (plain_key k); simpl; split.
    + by intros (x & [Hx _] & ->).
    + intros Hv. exists v. by split.
    + by intros (x & [_ Hx] & _).
    + done.
  - by destruct (state_dict c !! k).
Qed.

Lemma lax_lookup (weights own : gmap string Tensor) (k : string) :
  map_imap (fun k v => Some (default v (weights !! k))) own !! k
  = (fun v => default v (weights !! k)) <$> own !! k.
Proof. rewrite map_lookup_imap. by destruct (own !! k). Qed.

(** The weights taken with [exclude_norm] are the entries of the state
    dict whose name contains neither [norm] nor [lstm], each with its
    value; without it they are the whole state dict. *)
Theorem get_critic_weights_keeps_plain_entries (c : Critic) :
  get_critic_weights c false = state_dict c
  ∧ ∀ k v,
      get_critic_weights c true !! k = Some v
      ↔ state_dict c !! k = Some v
        ∧ ¬ (∃ a b, k = (a +:+ "norm" +:+ b)%string)
        ∧ ¬ (∃ a b, k = (a +:+ "lstm" +:+ b)%string).
Proof.
  split.
  - apply map_eq. intros k. by rewrite get_critic_weights_lookup.
  - intros k v. rewrite get_critic_weights_lookup, <- plain_key_occurs. simpl.
    destruct (plain_key k); simpl; split; try done; [by intros [? _]|by intros [_ ?]].
Qed.

(** Taking all the weights of an estimator and setting them back, strictly
    or not, succeeds and leaves the estimator as it was. *)
Theorem set_get_critic_weights_round_trip (c : Critic) (strict : bool) :
  set_critic_weights c (get_critic_weights c false) strict = Ok c.
Proof.
  assert (get_critic_weights c false = state_dict c) as ->.
  { apply map_eq. intros k. by rewrite get_critic_weights_lookup. }
  unfold set_critic_weights, load_state_dict_with, load_state_dict.
  destruct strict.
  - destruct (decide _) as [|Hn]; [by destruct c|].
    destruct Hn. split; [done|apply sizes_agree_refl].
  - rewrite sizes_agree_refl.
    f_equal. destruct c as [sd tr]. simpl. f_equal.
    apply map_eq. intros k. rewrite lax_lookup.
    by destruct (sd !! k).
Qed.

(** Setting, without [strict], the weights taken from one estimator with
    [exclude_norm] into another.  When each of them has the size of the
    other's parameter of the same name, where it has one, this succeeds:
    the other keeps its parameter names, its mode and every parameter
    whose name contains [norm] or [lstm], and takes the first one's value
    for each other parameter the first one has.  When one of them has
    another size, it raises RuntimeError. *)
Theorem partial_sync_spares_norm_and_lstm (source target : Critic) :
  let fits :=
    ∀ k t t',
      plain_key k = true →
      state_dict source !! k = Some t → state_dict target !! k = Some t' →
      tensor_shape t = tensor_shape t' in
  (fits →
   ∃ c',
     set_critic_weights target (get_critic_weights source true) false = Ok c'
     ∧ training c' = training target
     ∧ dom (state_dict c') = dom (state_dict target)
     ∧ ∀ k old,
         state_dict target !! k = Some old →
         state_dict c' !! k
         = Some (if plain_key k then default old (state_dict source !! k)
                 else old))
  ∧ (¬ fits →
     set_critic_weights target (get_critic_weights source true) false
     = Raise RuntimeError).
Proof.
  cbv zeta.
  assert (sizes_agree (get_critic_weights source true) (state_dict target)
          = true
          ↔ ∀ k t t',
              plain_key k = true →
              state_dict source !! k = Some t →
              state_dict target !! k = Some t' →
              tensor_shape t = tensor_shape t') as Hfits.
  { rewrite sizes_agree_spec. split.
    - intros H k t t' Hp Hs Ht. apply (H k t t'); [|done].
      rewrite get_critic_weights_lookup, Hp. simpl. done.
    - intros H k t t' Hw Ht. rewrite get_critic_weights_lookup in Hw.
      simpl in Hw. destruct (plain_key k) eqn:Hp; [|done].
      by apply (H k t t'). }
  unfold set_critic_weights, load_state_dict_with. split.
  - intros H. apply Hfits in H. rewrite H.
    eexists. split; [reflexivity|]. simpl. split_and!; [done| |].
    + apply set_eq. intros k. rewrite !elem_of_dom, lax_lookup.
      by rewrite fmap_is_Some.
    + intros k old Hk. rewrite lax_lookup, Hk, get_critic_weights_lookup. simpl.
      by destruct (plain_key k).
  - intros H. destruct (sizes_agree _ _); [|done].
    destruct H. by apply Hfits.
Qed.

(** Setting, with [strict], the weights an estimator gives with
    [exclude_norm] back into it: when none of its parameter names contains
    [norm] or [lstm] this succeeds and changes nothing, and as soon as one
    does it raises RuntimeError. *)
Theorem strict_set_of_plain_weights (c : Critic) :
  ((∀ k, k ∈ dom (state_dict c) → plain_key k = true) →
   set_critic_weights c (get_critic_weights c true) true = Ok c)
  ∧ (∀ k, k ∈ dom (state_dict c) → plain_key k = false →
     set_critic_weights c (get_critic_weights c true) true = Raise RuntimeError).
Proof.
  unfold set_critic_weights, load_state_dict_with, load_state_dict. split.
  - intros Hall.
    assert (get_critic_weights c true = state_dict c) as ->.
    { apply map_eq. intros k. rewrite get_critic_weights_lookup. simpl.
      destruct (state_dict c !! k) as [v|] eqn:Hk; [|by destruct (negb _)].
      rewrite Hall; [done|]. apply elem_of_dom. by eexists. }
    destruct (decide _) as [|Hn]; [by destruct c|].
    destruct Hn. split; [done|apply sizes_agree_refl].
  - intros k Hk Hplain. destruct (decide _) as [[Hd _]|]; [|done].
    exfalso. rewrite <- Hd in Hk. apply elem_of_dom in Hk as [v Hv].
    rewrite get_critic_weights_lookup, Hplain in Hv. done.
Qed.

End Helpers.

(** * Action selection *)

Section Acting.
Context `{C : Collaborators}.

(** [argmax_from] after a prefix [seen] whose first largest element is
    [best], at index [best_i]. *)
Lemma argmax_from_spec (seen l : list Q) (best : Q) (best_i : nat) :
  seen !! best_i = Some best →
  (∀ j y, seen !! j = Some y → (y <= best)%Q) →
  (∀ j y, seen !! j = Some y → (j < best_i)%nat → (y < best)%Q) →
  ∃ (a : nat) (x : Q),
    argmax_from best (Z.of_nat best_i) (Z.of_nat (length seen)) l = Z.of_nat a
    ∧ (seen ++ l) !! a = Some x
    ∧ (∀ j y, (seen ++ l) !! j = Some y → (y <= x)%Q)
    ∧ (∀ j y, (seen ++ l) !! j = Some y → (j < a)%nat → (y < x)%Q).
Proof.
  revert seen best best_i. induction l as [|z l IH]; intros seen best best_i Hb Hmax Hfirst.
  - exists best_i, best. rewrite app_nil_r. simpl. auto.
  - simpl. replace (Z.of_nat (length seen) + 1) with (Z.of_nat (length (seen ++ [z])))
      by (rewrite length_app; simpl; lia).
    replace (seen ++ z :: l) with ((seen ++ [z]) ++ l) by (by rewrite <- app_assoc).
    destruct (Qlt_le_dec best z) as [Hlt|Hle].
    + apply IH.
      * rewrite lookup_app_r by lia. by rewrite Nat.sub_diag.
      * intros j y Hj. apply lookup_app_Some in Hj as [Hj|[_ Hj]].
        -- apply Qlt_le_weak. eapply Qle_lt_trans; [by eapply Hmax|done].
        -- destruct (j - length seen)%nat; simpl in Hj; [|done].
           injection Hj as <-. apply Qle_refl.
      * intros j y Hj Hlen. apply lookup_app_Some in Hj as [Hj|[Hge _]]; [|lia].
        eapply Qle_lt_trans; [by eapply Hmax|done].
    + apply IH.
      * apply lookup_app_l_Some. done.
      * intros j y Hj. apply lookup_app_Some in Hj as [Hj|[_ Hj]].
        -- by eapply Hmax.
        -- destruct (j - length seen)%nat; simpl in Hj; [|done].
           by injection Hj as <-.
      * intros j y Hj Hlen. apply lookup_app_Some in Hj as [Hj|[Hge _]].
        -- by eapply Hfirst.
        -- apply lookup_lt_Some in Hb. lia.
Qed.

(** [argmax] gives the first index of a largest score. *)
Lemma argmax_spec (l : list Q) (a : Z) :
  argmax l = Ok a →
  ∃ x,
    0 ≤ a ∧ l !! Z.to_nat a = Some x
    ∧ (∀ j y, l !! j = Some y → (y <= x)%Q)
    ∧ (∀ j y, l !! j = Some y → (j < Z.to_nat a)%nat → (y < x)%Q).
Proof.
  destruct l as [|z l]; simpl; [done|]. intros [= <-].
  destruct (argmax_from_spec [z] l z 0) as (a & x & Ha & Hx & Hmax & Hfirst).
  - done.
  - intros [|j] y Hj; simpl in Hj; [|done]. injection Hj as <-. apply Qle_refl.
  - intros j y _ Hj. lia.
  - change (Z.of_nat 0) with 0 in Ha. change (Z.of_nat (length [z])) with 1 in Ha.
    rewrite Ha. exists x. rewrite Nat2Z.id. split; [lia|]. auto.
Qed.

(** A forward pass in evaluation mode gives the scores of the parameters
    and changes nothing. *)
Lemma forward_eval (state : list Obs) (st : St) :
  training (self_critic (self st)) = false →
  forward state st = (q_values (state_dict (self_critic (self st))) state, st).
Proof. intros H. unfold forward. by rewrite H. Qed.

(** A forward pass touches the estimator and the random sources only. *)
Lemma forward_footprint (state : list Obs) (st : St) :
  let st1 := (forward state st).2 in
  (∀ c, set_critic c (self st1) = set_critic c (self st))
  ∧ training (self_critic (self st1)) = training (self_critic (self st))
  ∧ (∀ r, with_random r (world st1) = with_random r (world st)).
Proof.
  cbv zeta. unfold forward. destruct (training _) eqn:E; [|done].
  destruct (forward_train _ _ _) as [[scores params] r]. simpl. done.
Qed.

(** With the estimator in evaluation mode [act] draws from the random
    sources and does nothing else: the sampler object, the environment,
    the files, the store and the trace are those it found; and the only
    exception it raises itself is ValueError: the estimator gave no
    scores, or the action was to be drawn among a number of actions that
    is not in the range from 1 to [2 ^ 63]. *)
Theorem act_only_draws (state : list Obs) (st : St) :
  training (self_critic (self st)) = false →
  let r := (act state st).1 in
  let st' := (act state st).2 in
  self st' = self st
  ∧ env (world st') = env (world st)
  ∧ files (world st') = files (world st)
  ∧ kv (world st') = kv (world st)
  ∧ queues (world st') = queues (world st)
  ∧ trace (world st') = trace (world st)
  ∧ ∀ e, r = Raise e →
         e = ValueError
         ∧ (q_values (state_dict (self_critic (self st))) state = []
            ∨ self_num_actions (self st) ≤ 0
            ∨ 2 ^ 63 < self_num_actions (self st)).
Proof.
  intros Heval.
  unfold act, critic_call, np_random_rand, np_random_randint. unfold_monad.
  rewrite (forward_eval state st Heval). simpl.
  destruct (q_values _ _) as [|z l]; simpl.
  { split_and!; try done. intros e [= <-]. auto. }
  destruct (np_rand _) as [u g]. simpl.
  destruct (num_lt u _); simpl; [|by split_and!].
  destruct (decide _) as [Hin|Hout]; simpl.
  - destruct (np_randint _ _) as [a' g']. simpl. by split_and!.
  - split_and!; try done. intros e [= <-]. split; [done|]. right. lia.
Qed.

(** When [act] returns an action, either the draw fell below eps and the
    action was drawn among [num_actions] actions, a number from 1 to
    [2 ^ 63], or it is the greedy one: the first index of a largest of the
    scores that the forward pass gave. *)
Theorem act_explores_or_is_greedy (state : list Obs) (st st' : St) (a : Z) :
  act state st = (Ok a, st') →
  let scores := (forward state st).1 in
  let found := random (world (forward state st).2) in
  let u := (np_rand found).1 in
  (num_lt u (self_eps (self st)) = true
   ∧ 0 < self_num_actions (self st) ≤ 2 ^ 63
   ∧ a = (np_randint (self_num_actions (self st)) (np_rand found).2).1)
  ∨ (num_lt u (self_eps (self st)) = false
     ∧ ∃ x,
         0 ≤ a ∧ scores !! Z.to_nat a = Some x
         ∧ (∀ j y, scores !! j = Some y → (y <= x)%Q)
         ∧ (∀ j y, scores !! j = Some y → (j < Z.to_nat a)%nat → (y < x)%Q)).
Proof.
  unfold act, critic_call, np_random_rand, np_random_randint. unfold_monad.
  cbv zeta.
  assert (self_eps (self (forward state st).2) = self_eps (self st)
          ∧ self_num_actions (self (forward state st).2)
            = self_num_actions (self st)) as [He Hn].
  { unfold forward. destruct (training _); [|done].
    by destruct (forward_train _ _ _) as [[? ?] ?]. }
  destruct (forward state st) as [scores st1]. simpl in *.
  destruct (argmax _) as [g|e] eqn:Hg; simpl; [|done].
  destruct (np_rand _) as [u r]. simpl. rewrite He, Hn.
  destruct (num_lt u _) eqn:Hlt; simpl.
  - destruct (decide _); simpl; [|done].
    destruct (np_randint _ _) as [a' r'] eqn:Hr. simpl. intros [= <- _].
    left. split; [done|]. by split.
  - intros [= <- _]. right. split; [done|]. by apply argmax_spec.
Qed.

End Acting.

(** * More on weight loading and storing *)

Section LoadAndStore.
Context `{C : Collaborators}.

(** The events of a load: none without a backend, otherwise the one read
    of the backend, whether the load succeeds or not. *)
Lemma load_critic_weights_trace (st : St) :
  ∃ evs,
    trace (world (load_critic_weights st).2) = evs ++ trace (world st)
    ∧ resets_done evs = O
    ∧ ((load_critic_weights st).1 = Ok tt → loads_done evs = 1%nat).
Proof.
  destruct (self_resume (self st)) as [path|] eqn:Hr.
  - rewrite (load_critic_weights_resume st path Hr). cbv zeta.
    exists [EvLoadCheckpoint path].
    destruct (files (world st) !! path) as [ck|]; [|done].
    destruct (ck !! "critic_state_dict"%string) as [wts|]; [|done].
    by destruct (load_state_dict _ _).
  - destruct (self_redis_server (self st)) eqn:Hs.
    + rewrite (load_critic_weights_store st Hr Hs). cbv zeta.
      exists [EvGet (critic_weights_key (self_redis_prefix (self st)))].
      destruct (deserialize _); [|done]. by destruct (load_state_dict _ _).
    + rewrite (load_critic_weights_none st Hr Hs). by exists [].
Qed.

(** A load whose backend yields no parameter set (no backend, no file, no
    [critic_state_dict] entry, or a store value the codec rejects) fails
    and leaves the sampler object as it was: in particular the estimator
    keeps its parameters and is not put in evaluation mode. *)
Theorem load_without_weights_leaves_sampler (st : St) :
  fetched_weights (self st) (world st) = None →
  ∃ e,
    (load_critic_weights st).1 = Raise e
    ∧ self (load_critic_weights st).2 = self st.
Proof.
  unfold fetched_weights.
  destruct (self_resume (self st)) as [path|] eqn:Hr.
  - rewrite (load_critic_weights_resume st path Hr). cbv zeta.
    destruct (files (world st) !! path) as [ck|]; [|by eexists].
    destruct (ck !! "critic_state_dict"%string) as [wts|]; [done|by eexists].
  - destruct (self_redis_server (self st)) eqn:Hs.
    + rewrite (load_critic_weights_store st Hr Hs). cbv zeta.
      destruct (deserialize _); [done|by eexists].
    + rewrite (load_critic_weights_none st Hr Hs). by eexists.
Qed.

Lemma load_state_dict_again (w : gmap string Tensor) (c c' : Critic) :
  load_state_dict w c = Ok c' → load_state_dict w (eval c') = Ok (eval c').
Proof.
  unfold load_state_dict. destruct (decide _); [|done]. intros [= <-]. simpl.
  destruct (decide _) as [|Hn]; [done|].
  destruct Hn. split; [done|apply sizes_agree_refl].
Qed.

(** Loading again right after a successful load, with the backend
    unchanged, succeeds and leaves the sampler object as the first load
    left it. *)
Theorem load_twice_is_load_once (st st1 : St) :
  load_critic_weights st = (Ok tt, st1) →
  ∃ st2,
    load_critic_weights st1 = (Ok tt, st2) ∧ self st2 = self st1.
Proof.
  intros Hload.
  destruct (self_resume (self st)) as [path|] eqn:Hr.
  - rewrite (load_critic_weights_resume st path Hr) in Hload. cbv zeta in Hload.
    destruct (files (world st) !! path) as [ck|] eqn:Hf; [|done].
    destruct (ck !! "critic_state_dict"%string) as [wts|] eqn:Hk; [|done].
    destruct (load_state_dict _ _) as [c|] eqn:Hl; [|done].
    injection Hload as <-.
    rewrite (load_critic_weights_resume _ path) by done. simpl.
    rewrite Hf, Hk. rewrite (load_state_dict_again _ _ _ Hl).
    eexists. split; done.
  - destruct (self_redis_server (self st)) eqn:Hs.
    + rewrite (load_critic_weights_store st Hr Hs) in Hload. cbv zeta in Hload.
      destruct (deserialize _) as [raw|] eqn:Hd; [|done].
      destruct (load_state_dict _ _) as [c|] eqn:Hl; [|done].
      injection Hload as <-.
      rewrite load_critic_weights_store by done. simpl.
      rewrite Hd. rewrite (load_state_dict_again _ _ _ Hl).
      eexists. split; done.
    + by rewrite (load_critic_weights_none st Hr Hs) in Hload.
Qed.

(** With a store handle, a [store_episode] that returns has appended one
    value at the tail of the list [trajectories] and touched nothing else:
    not the other lists, not the key-value entries, not the sampler. *)
Theorem store_episode_appends_one (st st' : St) :
  self_redis_server (self st) = true →
  store_episode st = (Ok tt, st') →
  ∃ value,
    queues (world st') !! "trajectories"%string
    = Some (default [] (queues (world st) !! "trajectories"%string) ++ [value])
    ∧ (∀ k, k ≠ "trajectories"%string →
            queues (world st') !! k = queues (world st) !! k)
    ∧ kv (world st') = kv (world st)
    ∧ self st' = self st
    ∧ trace (world st') = EvRpush "trajectories" value :: trace (world st).
Proof.
  intros Hs. rewrite store_episode_eq, Hs.
  destruct (get_complete_episode _) as [ep|]; [|done]. intros [= <-].
  exists (serialize ep). simpl. split_and!; try done.
  - by rewrite lookup_insert_eq.
  - intros k Hk. by rewrite lookup_insert_ne.
Qed.

End LoadAndStore.

(** * The books of a run *)

Section Books.
Context `{C : Collaborators}.

#[local] Existing Instance quiet_preorder.

Lemma act_silent (state : list Obs) : keeps silent (act state).
Proof.
  intros st.
  unfold keeps_at, silent, act, critic_call, np_random_rand, np_random_randint.
  unfold_monad.
  assert (trace (world (forward state st).2) = trace (world st)) as <-.
  { unfold forward. destruct (training _); [|done].
    by destruct (forward_train _ _ _) as [[? ?] ?]. }
  destruct (forward state st) as [scores st1]. simpl.
  destruct (argmax scores); simpl; [|done].
  destruct (np_rand _) as [u g]. simpl.
  destruct (num_lt u _); simpl; [|done].
  destruct (decide _); simpl; [|done].
  by destruct (np_randint _ _).
Qed.

(** A pass through the body of the inner loop that returns has stepped
    the environment once and counted the step. *)
Lemma run_step_ok (l l' : Locals) (st st' : St) :
  run_step l st = (Ok l', st') →
  step_index l' = step_index l + 1
  ∧ ∃ a, trace (world st') = EvStep a :: trace (world st).
Proof.
  intros E. unfold run_step in E.
  pose proof (act_silent
                (get_state (self_history_len (self st)) (self_buffer (self st)))
                st) as Hact.
  unfold keeps_at, silent in Hact.
  remember (act (get_state (self_history_len (self st)) (self_buffer (self st))))
    as call eqn:Hcall.
  unfold env_step_call in E. unfold_monad. cbv beta iota in E.
  rewrite <- Hcall in E.
  destruct (call st) as [[action|e] s1]; simpl in Hact; simpl in E; [|done].
  destruct (env_step _ _ _) as [[[[[o rw] d] i] e'] g']; simpl in E.
  destruct (decide _); simpl in E; [|done]. injection E as <- <-. simpl.
  split; [done|]. exists action. by rewrite Hact.
Qed.

(** The start of an episode that returns has seeded twice and reset the
    environment once, and hands back the locals of an episode with no step
    yet. *)
Lemma begin_episode_ok (l' : Locals) (st st' : St) :
  begin_episode st = (Ok l', st') →
  step_index l' = 0
  ∧ ∃ g s2 s1,
      trace (world st') = EvReset g :: EvSeed s2 :: EvSeed s1 :: trace (world st).
Proof.
  unfold begin_episode, random_randrange, set_global_seeds, random_choice,
    env_reset_call, random_randrange.
  unfold_monad. simpl.
  destruct (randbelow SEED_RANGE (random (world st))) as [d r]. simpl.
  destruct (self_seeds (self st)) as [pool|]; simpl.
  - destruct pool as [|z pool]; simpl; [done|].
    destruct (randbelow _ _) as [i r']. simpl.
    destruct (_ !! Z.to_nat i) as [x|]; simpl; [|done].
    destruct (env_reset _ _) as [[o e] g]. simpl. intros [= <- <-]. simpl.
    split; [done|]. by eexists _, _, _.
  - destruct (randbelow _ _) as [sd r']. simpl.
    destruct (env_reset _ _) as [[o e] g]. simpl. intros [= <- <-]. simpl.
    split; [done|]. by eexists _, _, _.
Qed.

(** A load that returns has read its backend once. *)
Lemma load_critic_weights_ok (st st' : St) :
  load_critic_weights st = (Ok tt, st') →
  ∃ ev,
    trace (world st') = ev :: trace (world st)
    ∧ ((∃ path, ev = EvLoadCheckpoint path) ∨ (∃ key, ev = EvGet key)).
Proof.
  intros Hload.
  destruct (self_resume (self st)) as [path|] eqn:Hr.
  - rewrite (load_critic_weights_resume st path Hr) in Hload. cbv zeta in Hload.
    destruct (files (world st) !! path) as [ck|]; [|done].
    destruct (ck !! "critic_state_dict"%string) as [wts|]; [|done].
    destruct (load_state_dict _ _); [|done]. injection Hload as <-.
    eexists. split; [done|]. left. by eexists.
  - destruct (self_redis_server (self st)) eqn:Hs.
    + rewrite (load_critic_weights_store st Hr Hs) in Hload. cbv zeta in Hload.
      destruct (deserialize _); [|done].
      destruct (load_state_dict _ _); [|done]. injection Hload as <-.
      eexists. split; [done|]. right. by eexists.
    + by rewrite (load_critic_weights_none st Hr Hs) in Hload.
Qed.

Lemma steps_printed_cons (ev : Event) (t : list Event) :
  steps_printed (ev :: t)
  = steps_printed t + match ev with EvPrint _ n _ _ _ => n | _ => 0 end.
Proof.
  unfold steps_printed. rewrite episodes_printed_cons, fmap_app, foldr_app.
  generalize (episodes_printed t).*2. intros ns.
  destruct ev; simpl; try lia.
  all: induction ns as [|m ns IH]; simpl; lia.
Qed.

Lemma seqZ_snoc (m : Z) (n : Z) :
  0 ≤ n → seqZ m (n + 1) = seqZ m n ++ [m + n].
Proof. intros Hn. rewrite seqZ_app by lia. done. Qed.

Lemma reloads_due_next (period i : Z) :
  1 ≤ i →
  reloads_due period (i + 1)
  = (reloads_due period i
     + if decide (((i + 1) mod period)%Z = 0%Z) then 1 else 0)%nat.
Proof.
  intros Hi. unfold reloads_due.
  replace (i + 1 - 1) with ((i - 1) + 1) by lia.
  rewrite seqZ_snoc by lia. rewrite filter_app, length_app.
  replace (2 + (i - 1)) with (i + 1) by lia.
  rewrite filter_cons, filter_nil. by destruct (decide _).
Qed.

Lemma quiet_attrs (s s' : St) :
  quiet s s' →
  self_episode_index (self s') = self_episode_index (self s)
  ∧ self_episode_limit (self s') = self_episode_limit (self s)
  ∧ self_weights_sync_period (self s') = self_weights_sync_period (self s).
Proof.
  intros (Hf & _ & Ha). unfold fixed in Hf. unfold account in Ha.
  split_and!; congruence.
Qed.

(** From the books after lines 190-228 to the books at the next head of
    the loops, or at the return. *)
Lemma books_run_episode_next (t0 new : list Event) (st : St) :
  trace (world st) = new ++ t0 →
  2 ≤ self_episode_index (self st) →
  (episodes_printed new).*1 = seqZ 1 (self_episode_index (self st) - 1) →
  resets_done new = length (episodes_printed new) →
  steps_printed new = Z.of_nat (steps_taken new) →
  loads_done new
  = S (reloads_due (self_weights_sync_period (self st))
         (self_episode_index (self st) - 1)) →
  (self_weights_sync_period (self st) = 0 → self_episode_index (self st) = 2) →
  match run_episode_next st with
  | (Ok None, st') =>
      ∃ new', trace (world st') = new' ++ t0 ∧ closed new' (self st')
  | (Ok (Some l'), st') =>
      ∃ new', trace (world st') = new' ++ t0 ∧ booked new' l' (self st')
  | (Raise _, _) => True
  end.
Proof.
  intros Htr Hidx Hpr Hrs Hst Hld Hp0.
  unfold run_episode_next, py_mod. unfold_monad. simpl.
  destruct (decide (self_episode_limit _ ≤ _)) as [Hlim|Hlim].
  { exists new. split; [done|]. unfold closed. by split_and!. }
  destruct (decide (self_weights_sync_period (self st) = 0)) as [|Hp]; [done|].
  simpl.
  assert (Hdue : ∀ k : nat,
    k = (if decide (self_episode_index (self st)
                    mod self_weights_sync_period (self st) = 0)
         then 1%nat else 0%nat) →
    (loads_done new + k)%nat
    = S (reloads_due (self_weights_sync_period (self st))
           (self_episode_index (self st)))).
  { intros k ->. rewrite Hld.
    pose proof (reloads_due_next (self_weights_sync_period (self st))
                  (self_episode_index (self st) - 1)) as Hnext.
    replace (self_episode_index (self st) - 1 + 1)
      with (self_episode_index (self st)) in Hnext by lia.
    rewrite Hnext by lia. lia. }
  assert (Hfinish : ∀ (s3 : St) (evs : list Event),
    quiet st s3 →
    trace (world s3) = evs ++ new ++ t0 →
    resets_done (evs ++ new) = resets_done new →
    steps_taken (evs ++ new) = steps_taken new →
    episodes_printed (evs ++ new) = episodes_printed new →
    steps_printed (evs ++ new) = steps_printed new →
    loads_done (evs ++ new)
    = S (reloads_due (self_weights_sync_period (self st))
           (self_episode_index (self st))) →
    match
      (let (r, s') := begin_episode s3 in
       match r with
       | Ok l' => (Ok (Some l'), s')
       | Raise e => (@Raise (option Locals) e, s')
       end)
    with
    | (Ok None, st') =>
        ∃ new', trace (world st') = new' ++ t0 ∧ closed new' (self st')
    | (Ok (Some l'), st') =>
        ∃ new', trace (world st') = new' ++ t0 ∧ booked new' l' (self st')
    | (Raise _, _) => True
    end).
  { intros s3 evs Hq3 Htr3 Hrs3 Hst3 Hpr3 Hsp3 Hld3.
    pose proof (quiet_begin_episode s3) as Hq4. unfold keeps_at in Hq4.
    destruct (begin_episode s3) as [[l'|e] s4] eqn:Hb; simpl in *; [|done].
    destruct (begin_episode_ok _ _ _ Hb) as (Hl0 & g & sd2 & sd1 & Htr4).
    destruct (quiet_attrs _ _ Hq3) as (Hi3 & Hl3 & Hp3).
    destruct (quiet_attrs _ _ Hq4) as (Hi4 & Hl4 & Hp4).
    exists (EvReset g :: EvSeed sd2 :: EvSeed sd1 :: evs ++ new).
    split; [rewrite Htr4, Htr3; simpl; by rewrite app_assoc|].
    unfold booked. rewrite Hi4, Hi3, Hl4, Hl3, Hp4, Hp3, Hl0.
    rewrite !episodes_printed_cons, !app_nil_r, !steps_printed_cons. simpl.
    rewrite Hpr3, Hrs3, Hst3, Hsp3, Hld3, Hrs.
    split_and!; try done; try lia. }
  destruct (decide (_ mod _ = 0)) as [Hr|Hr].
  - pose proof (quiet_load_critic_weights st) as Hq3. unfold keeps_at in Hq3.
    destruct (load_critic_weights st) as [[[]|e] s3] eqn:Hl; simpl in *; [|done].
    destruct (load_critic_weights_ok _ _ Hl) as (ev & Htr3 & Hev).
    apply (Hfinish s3 [ev]); try done.
    + by rewrite Htr3, Htr.
    + by destruct Hev as [[? ->]|[? ->]].
    + by destruct Hev as [[? ->]|[? ->]].
    + simpl. rewrite episodes_printed_cons.
      destruct Hev as [[? ->]|[? ->]]; by rewrite app_nil_r.
    + simpl. rewrite steps_printed_cons.
      destruct Hev as [[? ->]|[? ->]]; lia.
    + rewrite <- (Hdue 1%nat) by done.
      destruct Hev as [[? ->]|[? ->]]; simpl; lia.
  - apply (Hfinish st []); try done.
    simpl. rewrite <- (Hdue 0%nat) by done. lia.
Qed.

(** One turn keeps the books. *)
Lemma books_run_turn (t0 new : list Event) (l : Locals) (st : St) :
  trace (world st) = new ++ t0 →
  booked new l (self st) →
  match run_turn l st with
  | (Raised _, _) => True
  | (c, st') => ∃ new', trace (world st') = new' ++ t0 ∧ books new' c (self st')
  end.
Proof.
  intros Htr (Hi1 & Hpr & Hrs & Hl0 & Hst & Hld & Hp0 & Hlim).
  unfold run_turn. destruct (done l).
  - unfold run_episode_end. unfold mbind, M_bind, bind.
    rewrite run_episode_close_eq. cbv zeta.
    set (next := set_episode_index _ _).
    assert (Hcont : ∀ w' pushes,
      trace w'
      = (EvPrint (self_episode_index (self st)) (step_index l)
           (episode_reward l) (episode_reward_orig l) (seed l)
         :: pushes ++ new) ++ t0 →
      resets_done (pushes ++ new) = resets_done new →
      steps_taken (pushes ++ new) = steps_taken new →
      episodes_printed (pushes ++ new) = episodes_printed new →
      loads_done (pushes ++ new) = loads_done new →
      match
        (let (r, s') := run_episode_next {| self := next; world := w' |} in
         match r with
         | Ok (Some l') => (Running l', s')
         | Ok None => (Returned, s')
         | Raise e => (Raised e, s')
         end)
      with
      | (Raised _, _) => True
      | (c, st') =>
          ∃ new', trace (world st') = new' ++ t0 ∧ books new' c (self st')
      end).
    { intros w' pushes Hw' Hrs' Hst' Hpr' Hld'.
      pose proof (books_run_episode_next t0
                    (EvPrint (self_episode_index (self st)) (step_index l)
                       (episode_reward l) (episode_reward_orig l) (seed l)
                     :: pushes ++ new)
                    {| self := next; world := w' |}) as Hn.
      simpl in Hn.
      replace (self_episode_index (self st) + 1 - 1)
        with (self_episode_index (self st)) in Hn by lia.
      rewrite episodes_printed_cons, steps_printed_cons in Hn.
      unfold steps_printed in Hn. rewrite Hpr', Hrs', Hst', Hld' in Hn.
      fold (steps_printed new) in Hn.
      rewrite fmap_app, length_app, Hpr in Hn. simpl in Hn.
      destruct (run_episode_next _) as [[[l'|]|e] s']; simpl; [| |done].
      all: apply Hn; try done; try lia.
      all: symmetry;
        replace (self_episode_index (self st))
          with ((self_episode_index (self st) - 1) + 1) at 1 by lia;
        rewrite seqZ_snoc by lia; do 2 f_equal; lia. }
    destruct (storing (self st)); [destruct (get_complete_episode _)|].
    + apply (Hcont _ [EvRpush "trajectories" (serialize a)]); try done.
      * simpl. by rewrite Htr.
      * simpl. by rewrite episodes_printed_cons, app_nil_r.
    + done.
    + apply (Hcont _ []); try done. simpl. by rewrite Htr.
  - destruct (run_step l st) as [[l'|e] st'] eqn:E; simpl; [|done].
    destruct (run_step_ok _ _ _ _ E) as (Hl' & a & Ha).
    pose proof (run_step_effect l st) as (Hf & Hacc & _). rewrite E in Hf, Hacc.
    simpl in Hf, Hacc.
    exists (EvStep a :: new). split; [by rewrite Ha, Htr|].
    unfold books, booked.
    assert (self_episode_index (self st') = self_episode_index (self st)) as ->.
    { unfold account in Hacc. congruence. }
    assert (self_episode_limit (self st') = self_episode_limit (self st)) as ->.
    { unfold fixed in Hf. congruence. }
    assert (self_weights_sync_period (self st')
            = self_weights_sync_period (self st)) as ->.
    { unfold fixed in Hf. congruence. }
    rewrite episodes_printed_cons, steps_printed_cons, app_nil_r, Hl'. simpl.
    split_and!; try done; lia.
Qed.

Lemma books_run_loop (t0 : list Event) (fuel : nat) (new : list Event)
    (l : Locals) (st : St) :
  trace (world st) = new ++ t0 →
  booked new l (self st) →
  (∃ e, (run_loop fuel l st).1 = Raised e)
  ∨ ∃ new',
      trace (world (run_loop fuel l st).2) = new' ++ t0
      ∧ books new' (run_loop fuel l st).1 (self (run_loop fuel l st).2).
Proof.
  revert new l st. induction fuel as [|fuel IH]; intros new l st Htr Hb; simpl.
  - right. by exists new.
  - pose proof (books_run_turn t0 new l st Htr Hb) as Hturn.
    destruct (run_turn l st) as [[l'| |e] s1]; simpl.
    + destruct Hturn as (new' & Htr' & Hb'). by apply (IH new').
    + by right.
    + left. by exists e.
Qed.

(** The books of a run, wherever it is cut, unless it raised. *)
Lemma books_run (fuel : nat) (st : St) :
  (∃ e, (run fuel st).1 = Raised e)
  ∨ ∃ new,
      trace (world (run fuel st).2) = new ++ trace (world st)
      ∧ books new (run fuel st).1 (self (run fuel st).2).
Proof.
  unfold run.
  set (s1 := {| self := set_episode_index 1 (self st); world := world st |}).
  assert (run_prologue st = (load_critic_weights ≫= λ _, begin_episode) s1)
    as -> by done.
  unfold mbind, M_bind, bind.
  pose proof (quiet_load_critic_weights s1) as Hq2. unfold keeps_at in Hq2.
  destruct (load_critic_weights s1) as [[[]|e] s2] eqn:Hl; simpl in *.
  2:{ left. by exists e. }
  destruct (load_critic_weights_ok _ _ Hl) as (ev & Htr2 & Hev).
  pose proof (quiet_begin_episode s2) as Hq3. unfold keeps_at in Hq3.
  destruct (begin_episode s2) as [[l|e] s3] eqn:Hb; simpl in *.
  2:{ left. by exists e. }
  destruct (begin_episode_ok _ _ _ Hb) as (Hl0 & g & sd2 & sd1 & Htr3).
  destruct (quiet_attrs _ _ Hq2) as (Hi2 & _ & _).
  destruct (quiet_attrs _ _ Hq3) as (Hi3 & _ & _).
  apply (books_run_loop (trace (world st)) fuel
           [EvReset g; EvSeed sd2; EvSeed sd1; ev]).
  - by rewrite Htr3, Htr2.
  - unfold booked. rewrite Hi3, Hi2, Hl0. simpl.
    rewrite !episodes_printed_cons, !steps_printed_cons.
    destruct Hev as [[? ->]|[? ->]]; simpl; split_and!; try done; auto.
Qed.

End Books.

(** * What the books say *)

Section BookClaims.
Context `{C : Collaborators}.

Lemma printed_count (new : list Event) (i : Z) :
  (episodes_printed new).*1 = seqZ 1 i →
  Z.of_nat (length (episodes_printed new)) = Z.max 0 i.
Proof.
  intros H. apply (f_equal length) in H.
  rewrite length_fmap, length_seqZ in H. lia.
Qed.

(** In a run that has not raised, wherever it is cut, the episode lines
    printed since it began carry the numbers 1, 2, 3, ... in order, up to
    the one before the current episode index. *)
Theorem episodes_are_numbered_from_one (fuel : nat) (st : St) :
  raised (run fuel st).1 = false →
  ∃ new,
    trace (world (run fuel st).2) = new ++ trace (world st)
    ∧ (episodes_printed new).*1
      = seqZ 1 (self_episode_index (self (run fuel st).2) - 1).
Proof.
  intros Hr. destruct (books_run fuel st) as [[e He]|(new & Htr & Hb)].
  { by rewrite He in Hr. }
  exists new. split; [done|].
  destruct (run fuel st) as [[l| |e] st']; simpl in *; [| |done].
  - by destruct Hb as (_ & ? & _).
  - by destruct Hb as (_ & ? & _).
Qed.

(** In a run that has not raised, the environment has been reset once for
    each episode printed, and once more for the one in progress while the
    run is still looping: every episode starts with exactly one reset and
    none follows the last. *)
Theorem one_reset_per_episode (fuel : nat) (st : St) :
  raised (run fuel st).1 = false →
  ∃ new,
    trace (world (run fuel st).2) = new ++ trace (world st)
    ∧ resets_done new
      = (length (episodes_printed new) + episodes_open (run fuel st).1)%nat.
Proof.
  intros Hr. destruct (books_run fuel st) as [[e He]|(new & Htr & Hb)].
  { by rewrite He in Hr. }
  exists new. split; [done|].
  destruct (run fuel st) as [[l| |e] st']; simpl in *; [| |done].
  - destruct Hb as (_ & _ & -> & _). lia.
  - destruct Hb as (_ & _ & -> & _). lia.
Qed.

(** In a run that has not raised, the step counts printed for the finished
    episodes and the step count of the episode in progress add up to the
    number of environment steps taken: each step is counted once and the
    counter starts again at 0 with each episode. *)
Theorem printed_steps_add_up (fuel : nat) (st : St) :
  raised (run fuel st).1 = false →
  ∃ new,
    trace (world (run fuel st).2) = new ++ trace (world st)
    ∧ steps_printed new + steps_in_hand (run fuel st).1
      = Z.of_nat (steps_taken new)
    ∧ 0 ≤ steps_in_hand (run fuel st).1.
Proof.
  intros Hr. destruct (books_run fuel st) as [[e He]|(new & Htr & Hb)].
  { by rewrite He in Hr. }
  exists new. split; [done|].
  destruct (run fuel st) as [[l| |e] st']; simpl in *; [| |done].
  - by destruct Hb as (_ & _ & _ & ? & ? & _).
  - destruct Hb as (_ & _ & _ & -> & _). lia.
Qed.

(** In a run that has not raised, the weight backend has been read once
    before the first episode and once more for each later episode started
    whose index the sync period divides, and at no other time. *)
Theorem weights_reloaded_on_period (fuel : nat) (st : St) :
  raised (run fuel st).1 = false →
  ∃ new,
    trace (world (run fuel st).2) = new ++ trace (world st)
    ∧ loads_done new
      = S (reloads_due (self_weights_sync_period (self st))
             (Z.of_nat (length (episodes_printed new)
                        + episodes_open (run fuel st).1))).
Proof.
  intros Hr. destruct (books_run fuel st) as [[e He]|(new & Htr & Hb)].
  { by rewrite He in Hr. }
  exists new. split; [done|].
  destruct (tallied_run fuel st) as (Hf & _).
  assert (self_weights_sync_period (self (run fuel st).2)
          = self_weights_sync_period (self st)) as Hp.
  { unfold fixed in Hf. congruence. }
  destruct (run fuel st) as [[l| |e] st']; simpl in *; [| |done].
  - destruct Hb as (Hi & Hpr & _ & _ & _ & -> & _). rewrite Hp.
    apply printed_count in Hpr. do 2 f_equal. lia.
  - destruct Hb as (Hi & Hpr & _ & _ & -> & _). rewrite Hp.
    apply printed_count in Hpr. do 2 f_equal. lia.
Qed.

(** With a sync period of 0 and an episode limit above 2, a run never
    returns and never begins a second episode: while it loops no episode
    line has been printed, and what ends it is an exception (the
    ZeroDivisionError of line 233 once the first episode is over, if
    nothing fails before). *)
Theorem zero_sync_period_never_returns (fuel : nat) (st : St) :
  self_weights_sync_period (self st) = 0 →
  2 < self_episode_limit (self st) →
  (run fuel st).1 ≠ Returned
  ∧ (raised (run fuel st).1 = false →
     ∃ new,
       trace (world (run fuel st).2) = new ++ trace (world st)
       ∧ episodes_printed new = []).
Proof.
  intros Hp0 Hlim.
  destruct (tallied_run fuel st) as (Hf & _).
  assert (self_weights_sync_period (self (run fuel st).2) = 0) as Hp.
  { unfold fixed in Hf. congruence. }
  assert (self_episode_limit (self (run fuel st).2)
          = self_episode_limit (self st)) as Hl.
  { unfold fixed in Hf. congruence. }
  destruct (books_run fuel st) as [[e He]|(new & Htr & Hb)].
  { rewrite He. done. }
  destruct (run fuel st) as [[l| |e] st']; simpl in *; [| |done].
  - split; [done|]. intros _. exists new. split; [done|].
    destruct Hb as (_ & Hpr & _ & _ & _ & _ & Hone & _).
    rewrite (Hone Hp) in Hpr. simpl in Hpr.
    by destruct (episodes_printed new).
  - destruct Hb as (_ & _ & _ & _ & _ & Htwo & Hle). specialize (Htwo Hp). lia.
Qed.

End BookClaims.

(** * What a run leaves in the store *)

Section Footprint.
Context `{C : Collaborators}.

#[local] Instance appended_preorder : PreOrder appended.
Proof.
  split.
  - intros s. exists []. rewrite !app_nil_r. by split_and!.
  - intros a b c (v1 & Hp1 & Hq1 & Ho1) (v2 & Hp2 & Hq2 & Ho2).
    exists (v1 ++ v2). rewrite Hp2, Hp1, Hq2, Hq1, fmap_app, !app_assoc.
    split_and!; try done. intros k Hk. by rewrite Ho2, Ho1.
Qed.

Lemma account_appended (s s' : St) : account s' = account s → appended s s'.
Proof.
  intros Ha. unfold account in Ha. exists []. rewrite !app_nil_r.
  split_and!; [congruence| |intros k _]; by replace (queues (world s'))
    with (queues (world s)) by congruence.
Qed.

Lemma appended_run_turn (l : Locals) (st : St) : appended st (run_turn l st).2.
Proof.
  apply keeps_run_turn; try apply _; clear l st; intros l st.
  - unfold keeps_at. destruct (run_step_effect l st) as (_ & Ha & _).
    by apply account_appended.
  - unfold run_episode_end. apply at_bind; try apply _.
    + clear st. intros st. unfold keeps_at. rewrite run_episode_close_eq.
      cbv zeta.
      destruct (storing (self st)); [destruct (get_complete_episode _) as [ep|]|];
        simpl.
      * exists [serialize ep]. simpl.
        rewrite !values_pushed_cons, app_nil_r, lookup_insert_eq. simpl.
        split_and!; try done. intros k Hk. by rewrite lookup_insert_ne.
      * reflexivity.
      * exists []. simpl. rewrite values_pushed_cons, !app_nil_r. by split_and!.
    + intros _ s'. apply (keeps_mono appended quiet).
      * intros a b (_ & _ & Ha). by apply account_appended.
      * apply quiet_run_episode_next.
Qed.

Lemma appended_run_prologue : keeps appended run_prologue.
Proof.
  intros st.
  set (s1 := {| self := set_episode_index 1 (self st); world := world st |}).
  unfold keeps_at.
  assert (run_prologue st = (load_critic_weights ≫= λ _, begin_episode) s1)
    as -> by done.
  assert (quiet s1 ((load_critic_weights ≫= λ _, begin_episode) s1).2)
    as (_ & _ & Ha).
  { pose proof quiet_preorder.
    apply (at_bind quiet); [apply quiet_load_critic_weights|].
    intros _ s'. apply quiet_begin_episode. }
  unfold account in Ha. simpl in Ha. exists []. rewrite !app_nil_r.
  split_and!; [congruence| |intros k _];
    by replace (queues (world ((load_critic_weights ≫= λ _, begin_episode) s1).2))
      with (queues (world st)) by congruence.
Qed.

(** A run, wherever it is cut and however it ends, only ever appends to
    the list [trajectories]: that list is what it was followed by the
    values pushed, in the order of the pushes; every other list of the
    store, the key-value entries (the weights among them) and the
    checkpoint files are what they were. *)
Theorem run_only_appends_trajectories (fuel : nat) (st : St) :
  let st' := (run fuel st).2 in
  kv (world st') = kv (world st)
  ∧ files (world st') = files (world st)
  ∧ ∃ values,
      values_pushed (trace (world st'))
      = values_pushed (trace (world st)) ++ (("trajectories"%string,.) <$> values)
      ∧ default [] (queues (world st') !! "trajectories"%string)
        = default [] (queues (world st) !! "trajectories"%string) ++ values
      ∧ ∀ k, k ≠ "trajectories"%string →
             queues (world st') !! k = queues (world st) !! k.
Proof.
  cbv zeta. destruct (tallied_run fuel st) as (Hf & _).
  split_and!.
  - unfold fixed in Hf. congruence.
  - unfold fixed in Hf. congruence.
  - apply (keeps_run appended); try apply _;
      [apply appended_run_prologue|apply appended_run_turn].
Qed.

End Footprint.

(** * Edge configurations *)

Section Edges.
Context `{C : Collaborators}.

Lemma resets_done_app (a b : list Event) :
  resets_done (a ++ b) = (resets_done a + resets_done b)%nat.
Proof. induction a as [|[] a IH]; simpl; lia. Qed.

(** With an empty seed pool the start of an episode raises IndexError after
    the first seeding, before the environment is reset. *)
Lemma begin_episode_empty_pool (st : St) :
  self_seeds (self st) = Some [] →
  (begin_episode st).1 = Raise IndexError
  ∧ resets_done (trace (world (begin_episode st).2))
    = resets_done (trace (world st)).
Proof.
  intros Hs. unfold begin_episode, random_randrange, set_global_seeds,
    random_choice. unfold_monad. simpl.
  destruct (randbelow _ _) as [d r]. simpl. by rewrite Hs.
Qed.

(** With an empty seed pool ([seeds=[]], not [None]) a run never gets to
    its first episode: it is stopped by an exception before any reset of
    the environment, and when the opening weight load succeeds that
    exception is the IndexError of [random.choice]. *)
Theorem empty_seed_pool_stops_run (fuel : nat) (st : St) :
  self_seeds (self st) = Some [] →
  ∃ e,
    (run fuel st).1 = Raised e
    ∧ resets_done (trace (world (run fuel st).2))
      = resets_done (trace (world st))
    ∧ ((load_critic_weights
          {| self := set_episode_index 1 (self st); world := world st |}).1
       = Ok tt → e = IndexError).
Proof.
  intros Hs. unfold run.
  set (s1 := {| self := set_episode_index 1 (self st); world := world st |}).
  assert (run_prologue st = (load_critic_weights ≫= λ _, begin_episode) s1)
    as -> by done.
  unfold mbind, M_bind, bind.
  pose proof (quiet_load_critic_weights s1) as (Hf & _). unfold keeps_at in Hf.
  destruct (load_critic_weights_trace s1) as (evs & Htr & Hrs & _).
  destruct (load_critic_weights s1) as [[[]|e] s2]; simpl in *.
  - assert (self_seeds (self s2) = Some []) as Hs2.
    { unfold fixed in Hf. simpl in Hf. congruence. }
    destruct (begin_episode_empty_pool s2 Hs2) as [Hb Hr].
    destruct (begin_episode s2) as [[l|e] s3]; simpl in *; [done|].
    injection Hb as ->. exists IndexError. split_and!; try done.
    by rewrite Hr, Htr, resets_done_app, Hrs.
  - exists e. split_and!; try done. by rewrite Htr, resets_done_app, Hrs.
Qed.

End Edges.

(** * The estimator's mode over a run *)

Section EvalMode.
Context `{C : Collaborators}.

#[local] Instance settled_preorder : PreOrder settled.
Proof.
  split.
  - intros s H. exact H.
  - intros a b c H1 H2 H. apply H2, H1, H.
Qed.

(** A write that leaves the estimator alone. *)
Ltac settled_write := unfold settled; simpl; done.

Lemma settled_set_global_seeds i : keeps settled (set_global_seeds i).
Proof. unfold set_global_seeds. keeps_walk. settled_write. Qed.

Lemma settled_random_randrange n : keeps settled (random_randrange n).
Proof. unfold random_randrange. keeps_walk. settled_write. Qed.

Lemma settled_np_random_rand : keeps settled np_random_rand.
Proof. unfold np_random_rand. keeps_walk. settled_write. Qed.

Lemma settled_np_random_randint n : keeps settled (np_random_randint n).
Proof. unfold np_random_randint. keeps_walk. settled_write. Qed.

Lemma settled_env_reset_call : keeps settled env_reset_call.
Proof. unfold env_reset_call. keeps_walk. settled_write. Qed.

Lemma settled_env_step_call a : keeps settled (env_step_call a).
Proof. unfold env_step_call. keeps_walk. settled_write. Qed.

Lemma settled_redis_get k : keeps settled (redis_get k).
Proof. unfold redis_get. keeps_walk. settled_write. Qed.

Lemma settled_redis_rpush k v : keeps settled (redis_rpush k v).
Proof. unfold redis_rpush. keeps_walk. settled_write. Qed.

Lemma settled_print_episode i n r o sd :
  keeps settled (print_episode i n r o sd).
Proof. unfold print_episode. keeps_walk. settled_write. Qed.

Lemma settled_load_checkpoint path : keeps settled (load_checkpoint path).
Proof. unfold load_checkpoint. keeps_walk; settled_write. Qed.

#[local] Hint Resolve settled_set_global_seeds settled_random_randrange
  settled_np_random_rand settled_np_random_randint settled_env_reset_call
  settled_env_step_call settled_redis_get settled_redis_rpush
  settled_print_episode settled_load_checkpoint : keeps.

Lemma settled_random_choice seq : keeps settled (random_choice seq).
Proof. unfold random_choice. keeps_walk. Qed.

(** Loading a state dict leaves the mode as it is. *)
Lemma load_state_dict_training (weights : gmap string Tensor) (c c' : Critic) :
  load_state_dict weights c = Ok c' → training c' = training c.
Proof.
  unfold load_state_dict. destruct (decide _); [|done]. by intros [= <-].
Qed.

Lemma settled_install_weights weights : keeps settled (install_weights weights).
Proof.
  unfold install_weights. keeps_walk. unfold settled. simpl.
  match goal with
  | H : load_state_dict _ _ = Ok _ |- _ =>
      by rewrite (load_state_dict_training _ _ _ H)
  end.
Qed.

#[local] Hint Resolve settled_random_choice settled_install_weights : keeps.

Lemma settled_load_critic_weights : keeps settled load_critic_weights.
Proof. unfold load_critic_weights. keeps_walk; settled_write. Qed.

Lemma settled_store_episode : keeps settled store_episode.
Proof. unfold store_episode. keeps_walk; settled_write. Qed.

Lemma settled_critic_call state : keeps settled (critic_call state).
Proof.
  intros s. unfold keeps_at, critic_call, settled. simpl. intros H.
  by rewrite (forward_eval state s H).
Qed.

#[local] Hint Resolve settled_load_critic_weights settled_store_episode
  settled_critic_call : keeps.

Lemma settled_act state : keeps settled (act state).
Proof. unfold act. keeps_walk; settled_write. Qed.

Lemma settled_begin_episode : keeps settled begin_episode.
Proof. unfold begin_episode. keeps_walk; settled_write. Qed.

#[local] Hint Resolve settled_act settled_begin_episode : keeps.

Lemma settled_run_step l : keeps settled (run_step l).
Proof. unfold run_step, push_transition. keeps_walk; settled_write. Qed.

Lemma settled_run_episode_end l : keeps settled (run_episode_end l).
Proof.
  unfold run_episode_end, run_episode_close, run_episode_next.
  keeps_walk; settled_write.
Qed.

Lemma settled_run_turn l st : settled st (run_turn l st).2.
Proof.
  apply keeps_run_turn; try apply _;
    [apply settled_run_step|apply settled_run_episode_end].
Qed.

(** A load that succeeds leaves the estimator in evaluation mode. *)
Lemma load_critic_weights_eval (st st' : St) :
  load_critic_weights st = (Ok tt, st') →
  training (self_critic (self st')) = false.
Proof.
  intros Hload.
  destruct (self_resume (self st)) as [path|] eqn:Hr.
  - rewrite (load_critic_weights_resume st path Hr) in Hload. simpl in Hload.
    destruct (files (world st) !! path) as [ck|]; [|done].
    destruct (ck !! "critic_state_dict"%string) as [wts|]; [|done].
    destruct (load_state_dict _ _); [|done]. by injection Hload as <-.
  - destruct (self_redis_server (self st)) eqn:Hs.
    + rewrite (load_critic_weights_store st Hr Hs) in Hload. simpl in Hload.
      destruct (deserialize _) as [raw|]; [|done].
      destruct (load_state_dict _ _); [|done]. by injection Hload as <-.
    + by rewrite (load_critic_weights_none st Hr Hs) in Hload.
Qed.

(** Wherever a run is cut, if it has not been stopped by an exception the
    estimator is in evaluation mode: every forward pass that [act] makes
    in a run is one of an estimator in evaluation mode, whatever mode it
    was handed over in. *)
Theorem run_keeps_estimator_in_eval_mode (fuel : nat) (st : St) :
  raised (run fuel st).1 = false →
  training (self_critic (self (run fuel st).2)) = false.
Proof.
  unfold run.
  set (s1 := {| self := set_episode_index 1 (self st); world := world st |}).
  assert (run_prologue st = (load_critic_weights ≫= λ _, begin_episode) s1)
    as -> by done.
  unfold mbind, M_bind, bind.
  destruct (load_critic_weights s1) as [[[]|e] s2] eqn:Hload; simpl; [|done].
  apply load_critic_weights_eval in Hload.
  pose proof (settled_begin_episode s2) as Hb. unfold keeps_at in Hb.
  destruct (begin_episode s2) as [[l|e] s3]; simpl in *; [|done].
  intros _. apply (keeps_run_loop settled settled_run_turn fuel l s3). auto.
Qed.

End EvalMode.

(** * More of the sampler on the stub world *)

Section MoreOnTheStub.
Import Stub.
#[local] Existing Instance Stub.collaborators.

(** A pair is its first component and its second. *)
Lemma from_fst {A B : Type} (p : A * B) (a : A) : p.1 = a → p = (a, p.2).
Proof. destruct p. simpl. by intros ->. Qed.

Lemma run_returns_one_short_witness :
  let st := fresh config_fast_annealing (world0 0) in
  (run 40 st).1 = Returned
  ∧ self_episode_index (self (run 40 st).2)
    = Z.max 2 (self_episode_limit (self st))
  ∧ ∃ printed,
      episodes_printed (trace (world (run 40 st).2))
      = episodes_printed (trace (world st)) ++ printed
      ∧ Z.of_nat (length printed) = Z.max 1 (self_episode_limit (self st) - 1).
Proof.
  cbv zeta. split; [by vm_compute|].
  apply (run_returns_one_short 40 (fresh config_fast_annealing (world0 0))
           (run 40 (fresh config_fast_annealing (world0 0))).2).
  apply from_fst. by vm_compute.
Defined.

Lemma act_only_draws_witness :
  let st := (run 0 (fresh config3 (world0 0))).2 in
  let state := get_state (self_history_len (self st)) (self_buffer (self st)) in
  training (self_critic (self st)) = false
  ∧ self (act state st).2 = self st
  ∧ env (world (act state st).2) = env (world st)
  ∧ files (world (act state st).2) = files (world st)
  ∧ kv (world (act state st).2) = kv (world st)
  ∧ queues (world (act state st).2) = queues (world st)
  ∧ trace (world (act state st).2) = trace (world st)
  ∧ ∀ e, (act state st).1 = Raise e →
         e = ValueError
         ∧ (q_values (state_dict (self_critic (self st))) state = []
            ∨ self_num_actions (self st) ≤ 0
            ∨ 2 ^ 63 < self_num_actions (self st)).
Proof.
  cbv zeta. split; [reflexivity|].
  apply (act_only_draws
           (get_state
              (self_history_len (self (run 0 (fresh config3 (world0 0))).2))
              (self_buffer (self (run 0 (fresh config3 (world0 0))).2)))
           (run 0 (fresh config3 (world0 0))).2).
  reflexivity.
Defined.

Lemma act_explores_or_is_greedy_witness :
  let st := (run 0 (fresh config3 (world0 0))).2 in
  let state := get_state (self_history_len (self st)) (self_buffer (self st)) in
  let scores := (forward state st).1 in
  let found := random (world (forward state st).2) in
  (act state st).1 = Ok 0
  ∧ (num_lt (np_rand found).1 (self_eps (self st)) = true
     ∧ 0 < self_num_actions (self st) ≤ 2 ^ 63
     ∧ 0 = (np_randint (self_num_actions (self st)) (np_rand found).2).1
     ∨ num_lt (np_rand found).1 (self_eps (self st)) = false
       ∧ ∃ x,
           0 ≤ 0
           ∧ scores !! Z.to_nat 0 = Some x
           ∧ (∀ j y, scores !! j = Some y → (y <= x)%Q)
           ∧ (∀ j y, scores !! j = Some y → (j < Z.to_nat 0)%nat → (y < x)%Q)).
Proof.
  cbv zeta. split; [by vm_compute|].
  apply (act_explores_or_is_greedy _ (run 0 (fresh config3 (world0 0))).2
           (act (get_state
                   (self_history_len (self (run 0 (fresh config3 (world0 0))).2))
                   (self_buffer (self (run 0 (fresh config3 (world0 0))).2)))
              (run 0 (fresh config3 (world0 0))).2).2 0).
  apply from_fst. by vm_compute.
Defined.

Lemma load_without_weights_leaves_sampler_witness :
  let st := fresh config_store (world0 0) in
  fetched_weights (self st) (world st) = None
  ∧ ∃ e,
      (load_critic_weights st).1 = Raise e
      ∧ self (load_critic_weights st).2 = self st.
Proof.
  cbv zeta. split; [reflexivity|].
  apply (load_without_weights_leaves_sampler (fresh config_store (world0 0))).
  reflexivity.
Defined.

Lemma load_twice_is_load_once_witness :
  let st := fresh config3 (world0 0) in
  load_critic_weights st = (Ok tt, (load_critic_weights st).2)
  ∧ ∃ st2,
      load_critic_weights (load_critic_weights st).2 = (Ok tt, st2)
      ∧ self st2 = self (load_critic_weights st).2.
Proof.
  cbv zeta. split; [reflexivity|].
  apply (load_twice_is_load_once (fresh config3 (world0 0))).
  reflexivity.
Defined.

Lemma store_episode_appends_one_witness :
  let st := (run 5 (fresh config3 (world0 0))).2 in
  self_redis_server (self st) = true
  ∧ (store_episode st).1 = Ok tt
  ∧ ∃ value,
      queues (world (store_episode st).2) !! "trajectories"%string
      = Some (default [] (queues (world st) !! "trajectories"%string) ++ [value])
      ∧ (∀ k, k ≠ "trajectories"%string →
              queues (world (store_episode st).2) !! k = queues (world st) !! k)
      ∧ kv (world (store_episode st).2) = kv (world st)
      ∧ self (store_episode st).2 = self st
      ∧ trace (world (store_episode st).2)
        = EvRpush "trajectories" value :: trace (world st).
Proof.
  cbv zeta. do 2 (split; [by vm_compute|]).
  apply (store_episode_appends_one (run 5 (fresh config3 (world0 0))).2);
    [by vm_compute|apply from_fst; by vm_compute].
Defined.

Lemma episodes_are_numbered_from_one_witness :
  let st := fresh config_fast_annealing (world0 0) in
  raised (run 40 st).1 = false
  ∧ ∃ new,
      trace (world (run 40 st).2) = new ++ trace (world st)
      ∧ (episodes_printed new).*1
        = seqZ 1 (self_episode_index (self (run 40 st).2) - 1).
Proof.
  cbv zeta. split; [by vm_compute|].
  apply (episodes_are_numbered_from_one 40
           (fresh config_fast_annealing (world0 0))).
  by vm_compute.
Defined.

Lemma one_reset_per_episode_witness :
  let st := fresh config_fast_annealing (world0 0) in
  raised (run 12 st).1 = false
  ∧ ∃ new,
      trace (world (run 12 st).2) = new ++ trace (world st)
      ∧ resets_done new
        = (length (episodes_printed new) + episodes_open (run 12 st).1)%nat.
Proof.
  cbv zeta. split; [by vm_compute|].
  apply (one_reset_per_episode 12 (fresh config_fast_annealing (world0 0))).
  by vm_compute.
Defined.

Lemma printed_steps_add_up_witness :
  let st := fresh config_fast_annealing (world0 0) in
  raised (run 12 st).1 = false
  ∧ ∃ new,
      trace (world (run 12 st).2) = new ++ trace (world st)
      ∧ steps_printed new + steps_in_hand (run 12 st).1
        = Z.of_nat (steps_taken new)
      ∧ 0 ≤ steps_in_hand (run 12 st).1.
Proof.
  cbv zeta. split; [by vm_compute|].
  apply (printed_steps_add_up 12 (fresh config_fast_annealing (world0 0))).
  by vm_compute.
Defined.

Lemma weights_reloaded_on_period_witness :
  let st := fresh config_fast_annealing (world0 0) in
  raised (run 40 st).1 = false
  ∧ ∃ new,
      trace (world (run 40 st).2) = new ++ trace (world st)
      ∧ loads_done new
        = S (reloads_due (self_weights_sync_period (self st))
               (Z.of_nat (length (episodes_printed new)
                          + episodes_open (run 40 st).1))).
Proof.
  cbv zeta. split; [by vm_compute|].
  apply (weights_reloaded_on_period 40 (fresh config_fast_annealing (world0 0))).
  by vm_compute.
Defined.

Lemma zero_sync_period_never_returns_witness :
  let st := fresh config_zero_period (world0 0) in
  self_weights_sync_period (self st) = 0
  ∧ 2 < self_episode_limit (self st)
  ∧ (run 40 st).1 = Raised ZeroDivisionError
  ∧ (run 40 st).1 ≠ Returned
  ∧ (raised (run 40 st).1 = false →
     ∃ new,
       trace (world (run 40 st).2) = new ++ trace (world st)
       ∧ episodes_printed new = []).
Proof.
  cbv zeta. do 3 (split; [by vm_compute|]).
  apply (zero_sync_period_never_returns 40
           (fresh config_zero_period (world0 0))); by vm_compute.
Defined.

Lemma empty_seed_pool_stops_run_witness :
  let st := fresh config_empty_pool (world0 0) in
  self_seeds (self st) = Some []
  ∧ ∃ e,
      (run 40 st).1 = Raised e
      ∧ resets_done (trace (world (run 40 st).2))
        = resets_done (trace (world st))
      ∧ ((load_critic_weights
            {| self := set_episode_index 1 (self st); world := world st |}).1
         = Ok tt → e = IndexError).
Proof.
  cbv zeta. split; [by vm_compute|].
  apply (empty_seed_pool_stops_run 40 (fresh config_empty_pool (world0 0))).
  by vm_compute.
Defined.

Lemma run_keeps_estimator_in_eval_mode_witness :
  let st := fresh config3 (world0 0) in
  training (self_critic (self st)) = true
  ∧ raised (run 20 st).1 = false
  ∧ training (self_critic (self (run 20 st).2)) = false.
Proof.
  cbv zeta. split; [reflexivity|]. split; [by vm_compute|].
  apply (run_keeps_estimator_in_eval_mode 20 (fresh config3 (world0 0))).
  by vm_compute.
Defined.

(** Two estimators for the partial synchronisation: the source has a
    weight and a normalisation buffer, the target the same names with its
    own values. *)
Lemma partial_sync_spares_norm_and_lstm_witness :
  let source :=
    {| state_dict := {[ "w"%string := [7]; "norm.running_mean"%string := [3] ]};
       training := false |} in
  let target :=
    {| state_dict := {[ "w"%string := [0]; "norm.running_mean"%string := [5] ]};
       training := true |} in
  set_critic_weights target (get_critic_weights source true) false
  = Ok {| state_dict :=
            {[ "w"%string := [7]; "norm.running_mean"%string := [5] ]};
          training := true |}
  ∧ ∃ c',
      set_critic_weights target (get_critic_weights source true) false = Ok c'
      ∧ training c' = training target
      ∧ dom (state_dict c') = dom (state_dict target)
      ∧ ∀ k old,
          state_dict target !! k = Some old →
          state_dict c' !! k
          = Some (if plain_key k then default old (state_dict source !! k)
                  else old).
Proof.
  cbv zeta. split; [reflexivity|].
  refine (proj1 (partial_sync_spares_norm_and_lstm _ _) _).
  intros k t t' _ Hs Ht. cbn [state_dict] in Hs, Ht.
  destruct (decide (k = "w"%string)) as [->|Hw].
  { rewrite lookup_insert_eq in Hs. rewrite lookup_insert_eq in Ht.
    by simplify_eq. }
  rewrite lookup_insert_ne in Hs by done.
  rewrite lookup_insert_ne in Ht by done.
  apply lookup_singleton_Some in Hs as [_ <-].
  apply lookup_singleton_Some in Ht as [_ <-]. done.
Defined.

(** A tensor of another size stops the partial synchronisation. *)
Lemma partial_sync_rejects_another_size :
  let source :=
    {| state_dict := {[ "w"%string := [7; 8] ]}; training := false |} in
  set_critic_weights critic0 (get_critic_weights source true) false
  = Raise RuntimeError.
Proof. reflexivity. Qed.

(** With the estimator in training mode a call of [act] does change the
    sampler object: the forward pass moves the normalisation buffers. *)
Lemma act_in_training_mode_moves_buffers :
  let c :=
    {| state_dict := {[ "w"%string := [0]; "norm.running_mean"%string := [5] ]};
       training := true |} in
  let st := {| self := set_critic c blank; world := world0 0 |} in
  state_dict (self_critic (self (act [] st).2))
  = {[ "w"%string := [0]; "norm.running_mean"%string := [6] ]}.
Proof. reflexivity. Qed.

End MoreOnTheStub.

(** * The schedule in binary64 *)

Section OnBinary64.
#[local] Existing Instance Binary64.collaborators.

(** C4, the claim as stated fails, in two ways.  With
    [eps_init > eps_final] and a negative number of annealing steps eps
    goes up at the first step, from 1 to 1.95; with zero annealing steps
    the sampler cannot even be built.  And with the defaults (1, 0.05 and
    a million steps) the run that has stepped the environment 127 times,
    over 25 episodes and a part of the next, has an eps one unit in the
    last place above Python's [max(eps_init - 127 * delta, eps_final)]. *)
Lemma eps_departs_from_closed_form :
  (num_lt (exploration_eps_final (Binary64.config (-1)))
     (exploration_eps_init (Binary64.config (-1))) = true
   ∧ Binary64.eps_after (Binary64.config (-1)) 0
     = Some (SpecFloat.S754_finite false 4503599627370496 (-52), 0%nat)
   ∧ Binary64.eps_after (Binary64.config (-1)) 1
     = Some (SpecFloat.S754_finite false 8782019273372467 (-52), 1%nat)
   ∧ SpecFloat.SFltb (SpecFloat.S754_finite false 4503599627370496 (-52))
       (SpecFloat.S754_finite false 8782019273372467 (-52)) = true)
  ∧ (Sampler_init Binary64.critic0 (Binary64.config 0) Binary64.world0).1
    = Raise ZeroDivisionError
  ∧ (num_lt (exploration_eps_final (Binary64.config 1000000))
       (exploration_eps_init (Binary64.config 1000000)) = true
     ∧ Binary64.eps_after (Binary64.config 1000000) 152
       = Some (SpecFloat.S754_finite false 9006112536150908 (-53), 127%nat)
     ∧ Binary64.closed_form (Binary64.config 1000000) 127
       = SpecFloat.S754_finite false 9006112536150907 (-53)).
Proof.
  split_and!; try reflexivity; by vm_compute.
Qed.

(** The seven facts of [FloatOrder] hold of binary64 on every choice of
    numbers from [Binary64.samples], and of divisors from 1, 3, a million
    and [2 ^ 70]. *)
Lemma binary64_order_on_samples :
  let zero := SpecFloat.S754_zero false in
  let nan := fun x =>
    match x with SpecFloat.S754_nan => true | _ => false end in
  let all := fun p => forallb p Binary64.samples in
  all (fun x => all (fun y => implb (num_lt x y) (negb (num_lt y x)))) = true
  ∧ all (fun x => all (fun y =>
           implb (nan x) (negb (num_lt x y) && negb (num_lt y x))))
    = true
  ∧ all (fun a => all (fun b => all (fun c =>
           implb (negb (nan b) && negb (num_lt a b) && negb (num_lt b c))
             (negb (num_lt a c)))))
    = true
  ∧ all (fun x => all (fun d => implb (nan x) (nan (num_sub x d)))) = true
  ∧ all (fun x => all (fun d =>
           implb (negb (num_lt d zero)) (negb (num_lt x (num_sub x d)))))
    = true
  ∧ all (fun x => all (fun y =>
           implb (num_lt y x) (negb (num_lt (num_sub x y) zero))))
    = true
  ∧ all (fun x =>
           forallb
             (fun n =>
                implb (negb (num_lt x zero))
                  (negb (num_lt (num_div_int x n) zero)))
             [1; 3; 1000000; 2 ^ 70])
    = true.
Proof. cbv zeta. split_and!; by vm_compute. Qed.

End OnBinary64.
